(** * gmc_export: exporting Google Maps Coordinate jobs to CSV

    A shallow embedding of [gmc_export.py] (Python 2.7) and the properties
    of its paginated retrieval and row-flattening pipeline.

    The script talks to the Coordinate API through the Google API client and
    writes through [csv.writer]; both are libraries.  The API is modelled as
    a service that answers requests with decoded JSON objects, the CSV
    writer as a sink that records the rows handed to [writerow] together
    with the text it prints for them. *)

From stdpp Require Import base strings list gmap sorting pretty.
From Stdlib Require Import ZArith Ascii.

Local Open Scope Z_scope.

(** ** Python values

    The values that occur in a decoded JSON document.  A dictionary is an
    association list with distinct keys.  A float only travels from the
    response to the writer, so it is kept as the decimal number its [repr]
    shows: [PFloat m k] stands for [m / 10^k] (the model covers floats whose
    [repr] is in fixed notation).  Strings are byte strings: text outside
    ASCII, which Python 2's [csv] cannot write, is not modelled. *)

#[warnings="-register-all"]
Inductive pyval : Type :=
| PNone
| PBool (b : bool)
| PInt (z : Z)
| PFloat (m : Z) (k : nat)
| PStr (s : string)
| PList (l : list pyval)
| PDict (d : list (string * pyval)).

Abbreviation pydict := (list (string * pyval)).

(** The empty string, the default of most cells. *)
Definition empty_str : pyval := PStr EmptyString.

(** ** Exceptions and the error monad *)

Inductive exn : Type :=
| TypeError
| ValueError
| KeyError
| AttributeError
| OverflowError
| HttpError.

Inductive result (A : Type) : Type :=
| Ok (a : A)
| Raise (e : exn).
Arguments Ok {A} a.
Arguments Raise {A} e.

#[global] Instance result_ret : MRet result := fun A a => Ok a.
#[global] Instance result_bind : MBind result := fun A B f r =>
  match r with
  | Ok a => f a
  | Raise e => Raise e
  end.

(** [[f(x) for x in l]], evaluated left to right; the first exception
    ends the evaluation. *)
Fixpoint map_result {A B} (f : A -> result B) (l : list A) : result (list B) :=
  match l with
  | [] => Ok []
  | x :: l' => y ← f x; ys ← map_result f l'; Ok (y :: ys)
  end.

(** ** Builtins *)

(** [k in d] and [d[k]] on a dictionary. *)
Fixpoint dict_lookup (k : string) (d : pydict) : option pyval :=
  match d with
  | [] => None
  | (k', v) :: d' => if String.eqb k k' then Some v else dict_lookup k d'
  end.

Definition has_key (k : string) (d : pydict) : bool :=
  match dict_lookup k d with Some _ => true | None => false end.

(** [d.get(k, dflt)]; only dictionaries have the method. *)
Definition py_get (v : pyval) (k : string) (dflt : pyval) : result pyval :=
  match v with
  | PDict d => Ok (default dflt (dict_lookup k d))
  | _ => Raise AttributeError
  end.

(** [v[k]] with a string key. *)
Definition py_item (v : pyval) (k : string) : result pyval :=
  match v with
  | PDict d => match dict_lookup k d with Some x => Ok x | None => Raise KeyError end
  | _ => Raise TypeError
  end.

(** Truth value. *)
Definition truthy (v : pyval) : bool :=
  match v with
  | PNone => false
  | PBool b => b
  | PInt z => negb (z =? 0)
  | PFloat m _ => negb (m =? 0)
  | PStr s => negb (String.eqb s EmptyString)
  | PList l => match l with [] => false | _ => true end
  | PDict d => match d with [] => false | _ => true end
  end.

(** [a or b] *)
Definition py_or (a b : pyval) : pyval := if truthy a then a else b.

(** The characters of a string, as one-character strings. *)
Fixpoint chars (s : string) : list pyval :=
  match s with
  | EmptyString => []
  | String c s' => PStr (String c EmptyString) :: chars s'
  end.

(** Iteration: a list gives its elements, a dictionary its keys, a string
    its characters; nothing else is iterable. *)
Definition py_iter (v : pyval) : result (list pyval) :=
  match v with
  | PList l => Ok l
  | PDict d => Ok (map (fun kv => PStr (fst kv)) d)
  | PStr s => Ok (chars s)
  | _ => Raise TypeError
  end.

(** *** [int(x)] *)

Definition is_space (c : ascii) : bool :=
  let n := nat_of_ascii c in
  ((9 <=? n) && (n <=? 13))%nat || (n =? 32)%nat.

Definition digit_of (c : ascii) : option Z :=
  let n := nat_of_ascii c in
  if ((48 <=? n) && (n <=? 57))%nat then Some (Z.of_nat n - 48) else None.

Fixpoint lstrip (s : string) : string :=
  match s with
  | String c s' => if is_space c then lstrip s' else s
  | EmptyString => EmptyString
  end.

Fixpoint all_space (s : string) : bool :=
  match s with
  | String c s' => is_space c && all_space s'
  | EmptyString => true
  end.

(** Digits up to the first character that is not one; only white space may
    follow. *)
Fixpoint parse_digits (acc : Z) (s : string) : option Z :=
  match s with
  | EmptyString => Some acc
  | String c s' =>
      match digit_of c with
      | Some d => parse_digits (10 * acc + d) s'
      | None => if all_space s then Some acc else None
      end
  end.

Definition starts_with_digit (s : string) : bool :=
  match s with
  | String c _ => match digit_of c with Some _ => true | None => false end
  | EmptyString => false
  end.

Definition parse_unsigned (s : string) : option Z :=
  if starts_with_digit s then parse_digits 0 s else None.

(** [int(s)] for a string: optional white space, an optional sign, decimal
    digits, optional white space. *)
Definition int_of_string (s : string) : option Z :=
  match lstrip s with
  | String "-" s' => Z.opp <$> parse_unsigned s'
  | String "+" s' => parse_unsigned s'
  | s' => parse_unsigned s'
  end.

Definition py_int (v : pyval) : result Z :=
  match v with
  | PInt z => Ok z
  | PBool b => Ok (if b then 1 else 0)
  | PFloat m k => Ok (Z.quot m (10 ^ Z.of_nat k))
  | PStr s => match int_of_string s with Some z => Ok z | None => Raise ValueError end
  | _ => Raise TypeError
  end.

(** [max] of a sequence of integers; the empty sequence is an error. *)
Definition py_max (l : list Z) : result Z :=
  match l with
  | [] => Raise ValueError
  | x :: l' => Ok (foldl Z.max x l')
  end.

(** [sep.join(v)]: every element of the iterable must be a string. *)
Definition as_str (v : pyval) : result string :=
  match v with
  | PStr s => Ok s
  | _ => Raise TypeError
  end.

Fixpoint join (sep : string) (l : list string) : string :=
  match l with
  | [] => EmptyString
  | [s] => s
  | s :: l' => s +:+ sep +:+ join sep l'
  end.

Definition py_join (sep : string) (v : pyval) : result pyval :=
  items ← py_iter v;
  strs ← map_result as_str items;
  Ok (PStr (join sep strs)).

(** ** [datetime]

    [utcfromtimestamp] takes its argument as a C double, which an integer
    of [2^1024 - 2^970] or more in absolute value does not fit
    ([OverflowError]), and turns the seconds since the epoch into a
    calendar date of the proleptic Gregorian calendar; it accepts the years
    1 to 9999.  Python 2's [strftime] refuses years before 1900. *)

Record datetime : Type := {
  year : Z; month : Z; day : Z;
  hour : Z; minute : Z; second : Z
}.

(** The civil date of a day number counted from 1970-01-01. *)
Definition civil_from_days (days : Z) : Z * Z * Z :=
  let z := days + 719468 in
  let era := z / 146097 in
  let doe := z - era * 146097 in
  let yoe := (doe - doe / 1460 + doe / 36524 - doe / 146096) / 365 in
  let doy := doe - (365 * yoe + yoe / 4 - yoe / 100) in
  let mp := (5 * doy + 2) / 153 in
  let d := doy - (153 * mp + 2) / 5 + 1 in
  let m := if mp <? 10 then mp + 3 else mp - 9 in
  let y := yoe + era * 400 + (if m <=? 2 then 1 else 0) in
  (y, m, d).

(** The integers that [float] cannot hold. *)
Definition double_overflow (z : Z) : bool :=
  2 ^ 1024 - 2 ^ 970 <=? Z.abs z.

Definition utcfromtimestamp (secs : Z) : result datetime :=
  if double_overflow secs then Raise OverflowError
  else
    let '(y, m, d) := civil_from_days (secs / 86400) in
    let rem := secs mod 86400 in
    if (1 <=? y) && (y <=? 9999) then
      Ok {| year := y; month := m; day := d;
            hour := rem / 3600; minute := rem mod 3600 / 60;
            second := rem mod 60 |}
    else Raise ValueError.

(** The day number of a civil date, and the seconds since the epoch of a
    date and time ([calendar.timegm]): what [utcfromtimestamp] inverts. *)
Definition days_from_civil (y m d : Z) : Z :=
  let y' := if m <=? 2 then y - 1 else y in
  let era := y' / 400 in
  let yoe := y' - era * 400 in
  let doy := (153 * (if m <=? 2 then m + 9 else m - 3) + 2) / 5 + d - 1 in
  let doe := yoe * 365 + yoe / 4 - yoe / 100 + doy in
  era * 146097 + doe - 719468.

(** The Gregorian calendar: leap years and the lengths of the months. *)
Definition is_leap (y : Z) : bool :=
  (y mod 4 =? 0) && (negb (y mod 100 =? 0) || (y mod 400 =? 0)).

Definition days_in_month (y m : Z) : Z :=
  if m =? 2 then (if is_leap y then 29 else 28)
  else if (m =? 4) || (m =? 6) || (m =? 9) || (m =? 11) then 30 else 31.

Definition timegm (dt : datetime) : Z :=
  days_from_civil (year dt) (month dt) (day dt) * 86400
  + hour dt * 3600 + minute dt * 60 + second dt.

Definition digit_char (d : Z) : ascii := ascii_of_nat (48 + Z.to_nat d).

(** The last [k] decimal digits of [n], padded with zeros. *)
Fixpoint digits (k : nat) (n : Z) : string :=
  match k with
  | O => EmptyString
  | S k' => digits k' (n / 10) +:+ String (digit_char (n mod 10)) EmptyString
  end.

(** The text of the format [%Y-%m-%d %H:%M:%S UTC]. *)
Definition utc_format (dt : datetime) : string :=
  digits 4 (year dt) +:+ "-" +:+ digits 2 (month dt) +:+ "-" +:+
  digits 2 (day dt) +:+ " " +:+ digits 2 (hour dt) +:+ ":" +:+
  digits 2 (minute dt) +:+ ":" +:+ digits 2 (second dt) +:+ " UTC".

(** [dt.strftime('%Y-%m-%d %H:%M:%S UTC')] *)
Definition strftime (dt : datetime) : result string :=
  if year dt <? 1900 then Raise ValueError else Ok (utc_format dt).

(** ** The Coordinate service

    A request of the jobs collection carries the parameters the script
    passes to [jobs.list] and the page token; [execute] sends it and decodes
    the answer.  [list_next] is the client library's: no request when the
    response has no [nextPageToken], else the same request for that page. *)

Record Request : Type := {
  teamId : string;
  fields : string;
  maxResults : Z;
  pageToken : option pyval
}.

Record Service : Type := {
  customFieldDef_list : string -> result pydict;
  execute : Request -> result pydict
}.

Definition jobs_list (teamId fields : string) (maxResults : Z) : Request :=
  {| teamId := teamId; fields := fields; maxResults := maxResults;
     pageToken := None |}.

Definition list_next (request : Request) (response : pydict) : option Request :=
  match dict_lookup "nextPageToken" response with
  | Some token =>
      if truthy token then
        Some {| teamId := teamId request; fields := fields request;
                maxResults := maxResults request; pageToken := Some token |}
      else None
  | None => None
  end.

(** ** class Team *)

Record Team : Type := {
  service : Service;
  team_id : string
}.

(** A dictionary built by a comprehension: later entries replace earlier
    ones with the same key. *)
Definition dict_of_pairs (l : list (Z * pyval)) : gmap Z pyval :=
  foldl (fun m kv => <[kv.1 := kv.2]> m) ∅ l.

(** One entry of the comprehension in [get_custom_fields]; Python 2
    evaluates the value of an entry before its key. *)
Definition custom_field_def (item : pyval) : result (Z * pyval) :=
  name ← py_item item "name";
  i ← py_item item "id";
  id ← py_int i;
  Ok (id, name).

Definition get_custom_fields (self : Team) : result (gmap Z pyval) :=
  response ← customFieldDef_list (service self) (team_id self);
  items ← py_item (PDict response) "items";
  items ← py_iter items;
  defs ← map_result custom_field_def items;
  Ok (dict_of_pairs defs).

(** How a run of the generator ends: the loop is left, an exception
    escapes, or the fuel ran out while pages were still coming. *)
Inductive ending : Type :=
| Exhausted
| Failed (e : exn)
| Running.

(** The loop of [get_all_jobs]; [fuel] bounds the number of pages fetched.
    The result is the sequence of jobs yielded and the way the run ends. *)
Fixpoint get_all_jobs_loop (fuel : nat) (self : Team) (request : option Request)
  : list pyval * ending :=
  match request with
  | None => ([], Exhausted)
  | Some req =>
      match fuel with
      | O => ([], Running)
      | S fuel' =>
          match execute (service self) req with
          | Raise e => ([], Failed e)
          | Ok response =>
              if negb (has_key "items" response) then ([], Exhausted)
              else
                match items ← py_item (PDict response) "items"; py_iter items with
                | Raise e => ([], Failed e)
                | Ok items =>
                    let '(rest, e) :=
                      get_all_jobs_loop fuel' self (list_next req response) in
                    (items ++ rest, e)
                end
          end
      end
  end.

Definition get_all_jobs (fuel : nat) (self : Team) : list pyval * ending :=
  get_all_jobs_loop fuel self
    (Some (jobs_list (team_id self)
             "items(id,state,jobChange(timestamp)),nextPageToken" 100)).

(** ** [csv.writer]

    [writerow] prints a row as its fields separated by commas and ended by
    CR LF.  [None] is printed as the empty field, a number by [str] (a
    float by [repr]), a string as it is; a field that contains the
    delimiter, the quote character or a line break is quoted, its quotes
    doubled, and so is the only field of a row when it is empty. *)

Definition dquote : ascii := ascii_of_nat 34.
Definition crlf : string :=
  String (ascii_of_nat 13) (String (ascii_of_nat 10) EmptyString).

(** [repr] of the float [m / 10^k]. *)
Definition float_repr (m : Z) (k : nat) : string :=
  let a := Z.abs m in
  (if m <? 0 then "-" else EmptyString) +:+
  pretty (a / 10 ^ Z.of_nat k) +:+ "." +:+
  match k with
  | O => "0"
  | _ => digits k (a mod 10 ^ Z.of_nat k)
  end.

(** The text of a field before quoting; a container is printed by its
    [str], which is left out of the model. *)
Definition field_text (v : pyval) : option string :=
  match v with
  | PNone => Some EmptyString
  | PBool b => Some (if b then "True" else "False")
  | PInt z => Some (pretty z)
  | PFloat m k => Some (float_repr m k)
  | PStr s => Some s
  | PList _ | PDict _ => None
  end.

Definition special (c : ascii) : bool :=
  let n := nat_of_ascii c in
  ((n =? 44) || (n =? 34) || (n =? 13) || (n =? 10))%nat.

Fixpoint needs_quotes (s : string) : bool :=
  match s with
  | EmptyString => false
  | String c s' => special c || needs_quotes s'
  end.

Fixpoint double_quotes (s : string) : string :=
  match s with
  | EmptyString => EmptyString
  | String c s' =>
      if Ascii.eqb c dquote then String dquote (String dquote (double_quotes s'))
      else String c (double_quotes s')
  end.

Definition quoted (s : string) : string :=
  String dquote (double_quotes s +:+ String dquote EmptyString).

Definition csv_field (s : string) : string :=
  if needs_quotes s then quoted s else s.

Definition csv_line (row : list pyval) : option string :=
  texts ← mapM field_text row;
  Some (match texts with
        | [EmptyString] => quoted EmptyString
        | _ => join "," (csv_field <$> texts)
        end +:+ crlf).

(** The text of a file that received the rows [rows]. *)
Definition csv_text (rows : list (list pyval)) : option string :=
  lines ← mapM csv_line rows;
  Some (String.concat EmptyString lines).

(** ** The two output streams *)

Record io : Type := {
  out : list (list pyval);   (* the rows handed to [writer.writerow] *)
  stderr : string            (* what [sys.stderr.write] printed *)
}.

Definition writerow (row : list pyval) (w : io) : io :=
  {| out := out w ++ [row]; stderr := stderr w |}.

Definition stderr_write (s : string) (w : io) : io :=
  {| out := out w; stderr := stderr w +:+ s |}.

Definition start : io := {| out := []; stderr := EmptyString |}.

(** ** [export_to_csv] *)

Definition fixed_columns : list string :=
  ["Job ID"; "Last update"; "Title"; "Assignee"; "Progress"; "Address";
   "Lat"; "Lon"; "Contact name"; "Contact phone"; "Notes"].

(** Tuples [(id, name)] with distinct ids are ordered by id. *)
Definition key_le (x y : Z * pyval) : Prop := x.1 ≤ y.1.

#[global] Instance key_le_dec x y : Decision (key_le x y) :=
  decide (x.1 ≤ y.1).

(** [sorted(pairs)] *)
Definition sorted (pairs : list (Z * pyval)) : list (Z * pyval) :=
  merge_sort key_le pairs.

(** [sorted(custom_fields.items())]; [items()] lists the entries in the
    order the dictionary happens to keep them. *)
Definition sorted_items (custom_fields : gmap Z pyval) : list (Z * pyval) :=
  sorted (map_to_list custom_fields).

(** [ids, names = zip] of the pairs as arguments: the unpacking needs two
    tuples, and [zip] of no argument gives none. *)
Definition unzip (pairs : list (Z * pyval)) : result (list Z * list pyval) :=
  match pairs with
  | [] => Raise ValueError
  | _ => Ok (pairs.*1, pairs.*2)
  end.

Definition header (custom_field_names : list pyval) : list pyval :=
  (PStr <$> fixed_columns) ++ custom_field_names.

(** [int(c.get('timestamp') or 0)] *)
Definition change_timestamp (c : pyval) : result Z :=
  t ← py_get c "timestamp" PNone;
  py_int (py_or t (PInt 0)).

(** [max(... for c in job.get('jobChange') or [{}])] *)
Definition last_change (job : pyval) : result Z :=
  changes ← py_get job "jobChange" PNone;
  changes ← py_iter (py_or changes (PList [PDict []]));
  stamps ← map_result change_timestamp changes;
  py_max stamps.

(** The cell [timestamp]: lines 157 to 160. *)
Definition last_update (job : pyval) : result pyval :=
  last_change ← last_change job;
  dt ← utcfromtimestamp (last_change / 1000);
  if last_change =? 0 then Ok empty_str
  else s ← strftime dt; Ok (py_or (PStr s) empty_str).

(** One entry of the comprehension that builds [custom]. *)
Definition custom_entry (field : pyval) : result (Z * pyval) :=
  value ← py_get field "value" empty_str;
  i ← py_get field "customFieldId" PNone;
  id ← py_int (py_or i (PInt 0));
  Ok (id, value).

(** [fields] and [custom]: lines 163 to 165. *)
Definition job_custom (state : pyval) : result (gmap Z pyval) :=
  cf ← py_get state "customFields" PNone;
  f ← py_get (py_or cf (PDict [])) "customField" PNone;
  fields ← py_iter (py_or f (PDict []));
  entries ← map_result custom_entry fields;
  Ok (dict_of_pairs entries).

(** [custom.get(id, '') for id in custom_field_ids] *)
Definition custom_cells (custom : gmap Z pyval) (custom_field_ids : list Z)
  : list pyval :=
  (fun id => default empty_str (custom !! id)) <$> custom_field_ids.

(** The body of the loop up to [writerow]: the row of one job. *)
Definition job_row (custom_field_ids : list Z) (job : pyval)
  : result (list pyval) :=
  timestamp ← last_update job;
  state ← py_get job "state" PNone;
  location ← py_get state "location" PNone;
  custom ← job_custom state;
  job_id ← py_item job "id";
  title ← py_get state "title" empty_str;
  assignee ← py_get state "assignee" empty_str;
  progress ← py_get state "progress" empty_str;
  lines ← py_get location "addressLine" empty_str;
  address ← py_join " / " lines;
  lat ← py_get location "lat" PNone;
  lng ← py_get location "lng" PNone;
  name ← py_get state "customerName" PNone;
  phone ← py_get state "customerPhoneNumber" PNone;
  note ← py_get state "note" PNone;
  notes ← py_join " / " note;
  Ok ([job_id; timestamp; title; assignee; progress; address; lat; lng;
       name; phone; notes] ++ custom_cells custom custom_field_ids).

(** How a call ends: it returns the count, raises, or is still running when
    the fuel of the generator is used up. *)
Inductive outcome : Type :=
| Returned (count : nat)
| Raised (e : exn)
| Unfinished.

(** The [for] loop over the jobs yielded so far. *)
Fixpoint export_jobs (verbose : bool) (custom_field_ids : list Z)
    (jobs : list pyval) (count : nat) (w : io) : result nat * io :=
  match jobs with
  | [] => (Ok count, w)
  | job :: jobs' =>
      match job_row custom_field_ids job with
      | Raise e => (Raise e, w)
      | Ok row =>
          let w := writerow row w in
          let count := S count in
          let w := if verbose && (count mod 10 =? 0)%nat
                   then stderr_write "." w else w in
          export_jobs verbose custom_field_ids jobs' count w
      end
  end.

Definition export_to_csv (fuel : nat) (team : Team) (verbose : bool) (w : io)
  : outcome * io :=
  let w := if verbose then stderr_write "." w else w in
  match get_custom_fields team with
  | Raise e => (Raised e, w)
  | Ok custom_fields =>
      match unzip (sorted_items custom_fields) with
      | Raise e => (Raised e, w)
      | Ok (custom_field_ids, custom_field_names) =>
          let w := writerow (header custom_field_names) w in
          let w := if verbose then stderr_write "." w else w in
          let '(jobs, e) := get_all_jobs fuel team in
          match export_jobs verbose custom_field_ids jobs 0 w with
          | (Raise e, w) => (Raised e, w)
          | (Ok count, w) =>
              match e with
              | Exhausted => (Returned count, w)
              | Failed e => (Raised e, w)
              | Running => (Unfinished, w)
              end
          end
      end
  end.

(** ** Well-formed jobs

    The jobs for which the loop body is meant: an [id], changes with
    timestamps between the epoch and the end of the year 9999, a state with
    a location and a note, lists of strings for the address and the notes,
    custom field entries with integer ids. *)

Definition in_range (z : Z) : bool := (0 <=? z) && (z <? 253402300800000).

Definition wf_timestamp (t : pyval) : bool :=
  match t with
  | PNone => true
  | PInt z => in_range z
  | PStr s =>
      match int_of_string s with
      | Some z => in_range z
      | None => String.eqb s EmptyString
      end
  | _ => false
  end.

Definition wf_change (c : pyval) : bool :=
  match c with
  | PDict d => wf_timestamp (default PNone (dict_lookup "timestamp" d))
  | _ => false
  end.

Definition wf_changes (v : pyval) : bool :=
  match v with
  | PNone => true
  | PList changes => forallb wf_change changes
  | _ => false
  end.

Definition is_str (v : pyval) : bool :=
  match v with PStr _ => true | _ => false end.

Definition str_list (v : pyval) : bool :=
  match v with
  | PList l => forallb is_str l
  | _ => false
  end.

Definition wf_field_id (i : pyval) : bool :=
  match i with
  | PNone | PInt _ => true
  | PStr s =>
      match int_of_string s with
      | Some _ => true
      | None => String.eqb s EmptyString
      end
  | _ => false
  end.

Definition wf_field (field : pyval) : bool :=
  match field with
  | PDict d => wf_field_id (default PNone (dict_lookup "customFieldId" d))
  | _ => false
  end.

Definition wf_custom_fields (v : pyval) : bool :=
  match v with
  | PNone => true
  | PDict d =>
      match dict_lookup "customField" d with
      | None => true
      | Some (PList fields) => forallb wf_field fields
      | Some _ => false
      end
  | _ => false
  end.

Definition wf_location (v : pyval) : bool :=
  match v with
  | PDict d =>
      match dict_lookup "addressLine" d with
      | None => true
      | Some lines => str_list lines
      end
  | _ => false
  end.

Definition wf_state (v : pyval) : bool :=
  match v with
  | PDict d =>
      wf_location (default PNone (dict_lookup "location" d)) &&
      str_list (default PNone (dict_lookup "note" d)) &&
      wf_custom_fields (default PNone (dict_lookup "customFields" d))
  | _ => false
  end.

Definition wf_job (job : pyval) : bool :=
  match job with
  | PDict d =>
      has_key "id" d &&
      wf_changes (default PNone (dict_lookup "jobChange" d)) &&
      wf_state (default PNone (dict_lookup "state" d))
  | _ => false
  end.

(** The runs of [get_all_jobs] that leave the loop: there is no request,
    or the page has no [items] key, or the page is consumed and the run
    from the next request leaves the loop. *)
Inductive walk (self : Team) : option Request → list pyval → Prop :=
| walk_no_request :
    walk self None []
| walk_no_items req response :
    execute (service self) req = Ok response →
    has_key "items" response = false →
    walk self (Some req) []
| walk_page req response v items rest :
    execute (service self) req = Ok response →
    dict_lookup "items" response = Some v →
    py_iter v = Ok items →
    walk self (list_next req response) rest →
    walk self (Some req) (items ++ rest).

(** ** Scenarios

    Mock services and jobs on which the properties below are exercised. *)

(** A service that keeps its pages in a list: the request without a token
    gets the first page, the token [PInt i] the page [i]. *)
Definition page_service (defs : pydict) (pages : list pydict) : Service :=
  {| customFieldDef_list := λ _, Ok defs;
     execute := λ req,
       match pageToken req with
       | None => from_option Ok (Raise HttpError) (pages !! 0%nat)
       | Some (PInt i) => from_option Ok (Raise HttpError) (pages !! Z.to_nat i)
       | Some _ => Raise HttpError
       end |}.

Definition page_team (defs : pydict) (pages : list pydict) : Team :=
  {| service := page_service defs pages; team_id := "team" |}.

Definition field_def (id name : string) : pyval :=
  PDict [("id", PStr id); ("name", PStr name)].

(** The schema [{7: "Priority"}]. *)
Definition priority_defs : pydict :=
  [("items", PList [field_def "7" "Priority"])].

(** The job J1 of the end-to-end scenario. *)
Definition scenario_job : pyval :=
  PDict
    [("id", PStr "J1");
     ("state", PDict
        [("title", PStr "Fix leak");
         ("assignee", PStr "a@x.com");
         ("progress", PStr "COMPLETED");
         ("location", PDict
            [("addressLine", PList [PStr "1 Main St"; PStr "Apt 2"]);
             ("lat", PFloat 401 1);
             ("lng", PFloat (-739) 1)]);
         ("customerName", PStr "Bob");
         ("customerPhoneNumber", PStr "555-1234");
         ("note", PList [PStr "urgent"; PStr "done"]);
         ("customFields", PDict
            [("customField", PList
                [PDict [("customFieldId", PInt 7); ("value", PStr "High")]])])]);
     ("jobChange", PList [PDict [("timestamp", PStr "1000")];
                          PDict [("timestamp", PStr "5000")]])].

Definition scenario_team : Team :=
  page_team priority_defs [[("items", PList [scenario_job])]].

Definition scenario_header : list pyval :=
  PStr <$> ["Job ID"; "Last update"; "Title"; "Assignee"; "Progress";
            "Address"; "Lat"; "Lon"; "Contact name"; "Contact phone";
            "Notes"; "Priority"].

Definition scenario_row : list pyval :=
  [PStr "J1"; PStr "1970-01-01 00:00:05 UTC"; PStr "Fix leak";
   PStr "a@x.com"; PStr "COMPLETED"; PStr "1 Main St / Apt 2";
   PFloat 401 1; PFloat (-739) 1; PStr "Bob"; PStr "555-1234";
   PStr "urgent / done"; PStr "High"].

Definition scenario_text : string :=
  "Job ID,Last update,Title,Assignee,Progress,Address,Lat,Lon,Contact name,Contact phone,Notes,Priority"
  +:+ crlf +:+
  "J1,1970-01-01 00:00:05 UTC,Fix leak,a@x.com,COMPLETED,1 Main St / Apt 2,40.1,-73.9,Bob,555-1234,urgent / done,High"
  +:+ crlf.

(** Two pages: the first has a job and a cursor, the last has a cursor
    and no [items] key. *)
Definition cursor_team : Team :=
  page_team priority_defs
    [[("items", PList [scenario_job]); ("nextPageToken", PInt 1)];
     [("nextPageToken", PInt 2)]].

(** A job whose state has no [note]. *)
Definition noteless_job : pyval :=
  PDict [("id", PStr "J2");
         ("state", PDict [("title", PStr "Paint door");
                          ("location", PDict [("addressLine", PList [PStr "2 Side St"])])])].

(** The malformed job comes first, the job J1 after it. *)
Definition noteless_team : Team :=
  page_team priority_defs [[("items", PList [noteless_job; scenario_job])]].

(** A job with its [id], a location and a note, and nothing else. *)
Definition sparse_job : pyval :=
  PDict [("id", PStr "J3");
         ("state", PDict [("location", PDict []); ("note", PList [])])].

Definition sparse_row : list pyval :=
  [PStr "J3"; empty_str; empty_str; empty_str; empty_str; empty_str;
   PNone; PNone; PNone; PNone; empty_str; empty_str].

(** A team without jobs: its only page has no [items] key. *)
Definition idle_team : Team := page_team priority_defs [[]].

(** A team without custom field definitions. *)
Definition bare_team : Team :=
  page_team [("items", PList [])] [[("items", PList [scenario_job])]].

(** ** [main]

    The script after the command line is parsed: [connect] is what
    [get_service] gives in [Team.__init__], a service or the exception of a
    failed authorization; [out_name] is [flags.out_file.name]. *)

Definition Team_init (connect : result Service) (team_id : string)
  : result Team :=
  service ← connect;
  Ok {| service := service; team_id := team_id |}.

Definition newline : string := String (ascii_of_nat 10) EmptyString.

(** ['\n%d job%s written to %s.' % (count, count != 1 and 's' or '', name)] *)
Definition summary (count : nat) (name : string) : string :=
  newline +:+ pretty count +:+ " job" +:+
  (if negb (count =? 1)%nat then "s" else EmptyString) +:+
  " written to " +:+ name +:+ ".".

(** The state of a run of [main]: the two streams and whether
    [flags.out_file.close()] was reached. *)
Record run : Type := {
  streams : io;
  closed : bool
}.

Definition main (connect : result Service) (team_id out_name : string)
    (fuel : nat) (w : io) : outcome * run :=
  let w := stderr_write "Working..." w in
  match Team_init connect team_id with
  | Raise e => (Raised e, {| streams := w; closed := false |})
  | Ok team =>
      match export_to_csv fuel team true w with
      | (Returned count, w) =>
          let w := stderr_write (summary count out_name +:+ newline) w in
          (Returned count, {| streams := w; closed := true |})
      | (o, w) => (o, {| streams := w; closed := false |})
      end
  end.

(** [n] progress marks. *)
Fixpoint dots (n : nat) : string :=
  match n with
  | O => EmptyString
  | S n' => "." +:+ dots n'
  end.

(** The parameters that [get_all_jobs] gives to [jobs.list]. *)
Definition job_fields : string :=
  "items(id,state,jobChange(timestamp)),nextPageToken".

Definition expected (self : Team) (req : Request) : bool :=
  String.eqb (teamId req) (team_id self) &&
  String.eqb (fields req) job_fields &&
  (maxResults req =? 100).

(** The same team behind a service that refuses every request of the jobs
    collection with other parameters. *)
Definition strict (self : Team) : Team :=
  {| service :=
       {| customFieldDef_list := customFieldDef_list (service self);
          execute := λ req,
            if expected self req then execute (service self) req
            else Raise HttpError |};
     team_id := team_id self |}.

(** A first page with a job and a cursor to a page that the service does
    not have. *)
Definition broken_team : Team :=
  page_team priority_defs
    [[("items", PList [scenario_job]); ("nextPageToken", PInt 5)]].

(** A team whose custom field response has no [items] key. *)
Definition undefined_team : Team :=
  page_team [] [[("items", PList [scenario_job])]].

(** A job without [id]. *)
Definition nameless_job : pyval :=
  PDict [("state", PDict [("location", PDict []); ("note", PList [])])].

(** A number below 100 in two decimal digits. *)
Definition pad2 (n : Z) : string :=
  if n <? 10 then "0" +:+ pretty n else pretty n.

(** A job changed on a leap day and, later, in October 2014. *)
Definition dated_job : pyval :=
  PDict [("id", PStr "J5");
         ("state", PDict [("location", PDict []); ("note", PList [])]);
         ("jobChange", PList [PDict [("timestamp", PStr "951782400000")];
                              PDict [("timestamp", PStr "1414000000123")];
                              PDict []])].

Definition dated_row : list pyval :=
  [PStr "J5"; PStr "2014-10-22 17:46:40 UTC"; empty_str; empty_str; empty_str;
   empty_str; PNone; PNone; PNone; PNone; empty_str; empty_str].

(** A job changed in the year 10000. *)
Definition late_job : pyval :=
  PDict [("id", PStr "J4");
         ("state", PDict [("location", PDict []); ("note", PList [])]);
         ("jobChange", PList [PDict [("timestamp", PStr "253402300800000")]])].

(** * Properties *)

(** ** The error monad *)

Lemma bind_Ok {A B} (r : result A) (f : A → result B) (b : B) :
  r ≫= f = Ok b → ∃ a, r = Ok a ∧ f a = Ok b.
Proof. destruct r as [a|e]; [eauto | discriminate]. Qed.

Ltac inv_bind H :=
  let a := fresh "a" in
  let Ha := fresh "Ha" in
  apply bind_Ok in H as (a & Ha & H).

Lemma map_result_Forall2 {A B} (f : A → result B) l k :
  map_result f l = Ok k ↔ Forall2 (λ x y, f x = Ok y) l k.
Proof.
  split.
  - revert k. induction l as [|x l IH]; intros k H; simpl in H.
    + injection H as <-. constructor.
    + inv_bind H. inv_bind H. injection H as <-. constructor; auto.
  - induction 1 as [|x y l k Hxy _ IH]; simpl; [done|].
    rewrite Hxy. simpl. rewrite IH. done.
Qed.

Lemma map_result_length {A B} (f : A → result B) l k :
  map_result f l = Ok k → length k = length l.
Proof.
  intros H%map_result_Forall2. symmetry. by eapply Forall2_length.
Qed.

(** ** The loop over the jobs *)

Section export_jobs.
Context (verbose : bool) (ids : list Z).

(** When every job has a row, the loop writes the rows in the order of
    the jobs and counts them. *)
Lemma export_jobs_rows jobs rows count w :
  map_result (job_row ids) jobs = Ok rows →
  ∃ w', export_jobs verbose ids jobs count w
        = (Ok (count + length jobs)%nat, w')
        ∧ out w' = out w ++ rows.
Proof.
  revert rows count w. induction jobs as [|job jobs IH]; intros rows count w H.
  - simpl in H. injection H as <-. exists w. simpl.
    by rewrite Nat.add_0_r, app_nil_r.
  - simpl in H. inv_bind H. inv_bind H. injection H as <-.
    simpl. rewrite Ha.
    edestruct (IH a0 (S count)) as (w' & -> & Hout); [done|].
    exists w'. split; [f_equal; f_equal; lia|].
    rewrite Hout. destruct (verbose && _); simpl; by rewrite <-app_assoc.
Qed.

(** Conversely the loop only ends normally when every job had a row. *)
Lemma export_jobs_Ok jobs count n w w' :
  export_jobs verbose ids jobs count w = (Ok n, w') →
  ∃ rows, map_result (job_row ids) jobs = Ok rows.
Proof.
  revert count w. induction jobs as [|job jobs IH]; intros count w H.
  - by exists [].
  - simpl in H. destruct (job_row ids job) as [row|e] eqn:Hrow; [|done].
    apply IH in H as [rows Hrows]. exists (row :: rows).
    simpl. rewrite Hrow. simpl. by rewrite Hrows.
Qed.

(** An exception in the row of a job ends the loop: the rows of the jobs
    before it stay written, nothing is written after them. *)
Lemma export_jobs_Raise jobs rows job e rest count w :
  map_result (job_row ids) jobs = Ok rows →
  job_row ids job = Raise e →
  ∃ w', export_jobs verbose ids (jobs ++ job :: rest) count w = (Raise e, w')
        ∧ out w' = out w ++ rows.
Proof.
  revert rows count w. induction jobs as [|j jobs IH]; intros rows count w H He.
  - simpl in H. injection H as <-. exists w. simpl. rewrite He.
    by rewrite app_nil_r.
  - simpl in H. inv_bind H. inv_bind H. injection H as <-.
    simpl. rewrite Ha.
    edestruct (IH a0 (S count)) as (w' & -> & Hout); [done..|].
    exists w'. split; [done|].
    rewrite Hout. destruct (verbose && _); simpl; by rewrite <-app_assoc.
Qed.
End export_jobs.

(** The progress marks do not reach the data: the loop gives the same
    result and the same rows with and without them. *)
Lemma export_jobs_verbose ids jobs count w1 w2 :
  out w1 = out w2 →
  (export_jobs true ids jobs count w1).1 = (export_jobs false ids jobs count w2).1
  ∧ out (export_jobs true ids jobs count w1).2
    = out (export_jobs false ids jobs count w2).2.
Proof.
  revert count w1 w2. induction jobs as [|job jobs IH]; intros count w1 w2 H.
  - done.
  - simpl. destruct (job_row ids job) as [row|e]; [|done].
    apply IH. destruct (_ =? _)%nat; simpl; by rewrite H.
Qed.

Lemma export_jobs_out verbose ids jobs count w :
  ∃ rows, out (export_jobs verbose ids jobs count w).2 = out w ++ rows.
Proof.
  revert count w. induction jobs as [|job jobs IH]; intros count w; simpl.
  - exists []. by rewrite app_nil_r.
  - destruct (job_row ids job) as [row|e]; simpl.
    + edestruct IH as [rows ->]. exists (row :: rows).
      destruct (verbose && _); simpl; by rewrite <-app_assoc.
    + exists []. by rewrite app_nil_r.
Qed.

(** ** The order of the columns *)

#[global] Instance key_le_total : Total key_le.
Proof. intros x y. unfold key_le. lia. Qed.

#[global] Instance key_le_trans : Transitive key_le.
Proof. intros x y z. unfold key_le. lia. Qed.

Lemma sorted_Permutation pairs : sorted pairs ≡ₚ pairs.
Proof. apply merge_sort_Permutation. Qed.

Lemma sorted_StronglySorted pairs : StronglySorted key_le (sorted pairs).
Proof. apply StronglySorted_merge_sort; apply _. Qed.

(** With distinct keys the order is strict. *)
Lemma StronglySorted_strict (l : list (Z * pyval)) :
  NoDup l.*1 → StronglySorted key_le l →
  StronglySorted (λ x y, x.1 < y.1) l.
Proof.
  induction 2 as [|x l Hl IH Hx]; [constructor|].
  simpl in *. apply NoDup_cons in H as [Hnotin Hnd].
  constructor; [by apply IH|].
  rewrite Forall_forall in Hx |- *. intros y Hy.
  assert (x.1 ≠ y.1).
  { intros Heq. apply Hnotin. rewrite Heq. apply list_elem_of_fmap. eauto. }
  specialize (Hx y Hy). unfold key_le in Hx. lia.
Qed.

Lemma sorted_items_Permutation (m : gmap Z pyval) :
  sorted_items m ≡ₚ map_to_list m.
Proof. apply sorted_Permutation. Qed.

Lemma sorted_items_elem_of (m : gmap Z pyval) id name :
  (id, name) ∈ sorted_items m ↔ m !! id = Some name.
Proof. rewrite sorted_items_Permutation. apply elem_of_map_to_list. Qed.

Lemma sorted_items_strict (m : gmap Z pyval) :
  StronglySorted (λ x y, x.1 < y.1) (sorted_items m).
Proof.
  apply StronglySorted_strict; [|apply sorted_StronglySorted].
  rewrite sorted_items_Permutation. apply NoDup_fst_map_to_list.
Qed.

(** Whatever the order in which the dictionary lists its entries, sorting
    gives the same sequence. *)
Lemma sorted_any_order (m : gmap Z pyval) items :
  items ≡ₚ map_to_list m → sorted items = sorted_items m.
Proof.
  intros Hp. apply (StronglySorted_unique_strong key_le).
  - intros [k1 v1] [k2 v2] H1 H2 Hle1 Hle2. unfold key_le in *. simpl in *.
    assert (k1 = k2) as -> by lia. f_equal.
    rewrite sorted_Permutation, Hp in H1.
    apply sorted_items_elem_of in H2. apply elem_of_map_to_list in H1.
    congruence.
  - apply sorted_StronglySorted.
  - apply sorted_StronglySorted.
  - by rewrite sorted_Permutation, sorted_items_Permutation.
Qed.

Lemma sorted_items_empty : sorted_items (∅ : gmap Z pyval) = [].
Proof. unfold sorted_items. by rewrite map_to_list_empty. Qed.

Lemma sorted_items_nil (m : gmap Z pyval) : sorted_items m = [] → m = ∅.
Proof.
  intros H. apply map_to_list_empty_iff, Permutation_nil_r.
  by rewrite <-sorted_items_Permutation, H.
Qed.

Lemma unzip_Ok pairs ids names :
  unzip pairs = Ok (ids, names) ↔ pairs ≠ [] ∧ ids = pairs.*1 ∧ names = pairs.*2.
Proof.
  destruct pairs as [|p pairs]; simpl; split.
  - discriminate.
  - by intros [? _].
  - intros [= <- <-]. done.
  - by intros (_ & -> & ->).
Qed.

Lemma length_sorted_items (m : gmap Z pyval) :
  length (sorted_items m) = size m.
Proof. by rewrite sorted_items_Permutation, length_map_to_list. Qed.

(** ** End to end *)

(** C1: with the schema {7: "Priority"} and the single job J1, export
    writes the header row and the row of J1, printed as the two lines of
    the scenario, and returns the count 1. *)
Theorem scenario_export (fuel : nat) (verbose : bool) :
  get_custom_fields scenario_team = Ok {[ 7 := PStr "Priority" ]} ∧
  get_all_jobs (S fuel) scenario_team = ([scenario_job], Exhausted) ∧
  ∃ w, export_to_csv (S fuel) scenario_team verbose start = (Returned 1%nat, w)
       ∧ out w = [scenario_header; scenario_row]
       ∧ csv_text (out w) = Some scenario_text.
Proof.
  split; [reflexivity|]. split; [by destruct fuel|].
  destruct fuel, verbose; eexists; (split; [vm_compute; reflexivity|]);
    split; reflexivity.
Qed.

(** With an empty schema export raises at the unpacking, after the first
    progress mark at most. *)
Lemma export_to_csv_empty fuel team verbose w :
  get_custom_fields team = Ok ∅ →
  export_to_csv fuel team verbose w
  = (Raised ValueError, if verbose then stderr_write "." w else w).
Proof.
  intros Hget. unfold export_to_csv. by rewrite Hget, sorted_items_empty.
Qed.

(** ** The header row *)

(** C2: the header row that export writes is the eleven fixed column names
    followed by the names of the custom fields in ascending order of their
    ids, and sorting gives that order whatever the order in which the
    schema lists its entries.  (A schema without fields has no header row:
    see [export_to_csv_empty].) *)
Theorem header_row_sorted (fuel : nat) (team : Team) (verbose : bool) (w : io)
    (custom_fields : gmap Z pyval) :
  get_custom_fields team = Ok custom_fields →
  let pairs := sorted_items custom_fields in
  (∀ row rows, out (export_to_csv fuel team verbose w).2 = out w ++ row :: rows →
               row = header pairs.*2) ∧
  (custom_fields ≠ ∅ →
   ∃ rows, out (export_to_csv fuel team verbose w).2
           = out w ++ header pairs.*2 :: rows) ∧
  header pairs.*2
    = [PStr "Job ID"; PStr "Last update"; PStr "Title"; PStr "Assignee";
       PStr "Progress"; PStr "Address"; PStr "Lat"; PStr "Lon";
       PStr "Contact name"; PStr "Contact phone"; PStr "Notes"] ++ pairs.*2 ∧
  (∀ id name, (id, name) ∈ pairs ↔ custom_fields !! id = Some name) ∧
  length pairs = size custom_fields ∧
  StronglySorted (λ x y, x.1 < y.1) pairs ∧
  (∀ items, items ≡ₚ map_to_list custom_fields → sorted items = pairs).
Proof.
  intros Hget pairs.
  assert (pairs ≠ [] →
          ∃ rows, out (export_to_csv fuel team verbose w).2
                  = out w ++ header pairs.*2 :: rows) as Hwritten.
  { intros Hne. unfold export_to_csv. rewrite Hget. fold pairs.
    destruct pairs as [|p pairs']; [done|].
    cbn [unzip]. destruct (get_all_jobs fuel team) as [jobs e].
    match goal with
    | |- context [export_jobs ?v ?i ?j ?c ?w0] =>
        destruct (export_jobs_out v i j c w0) as [rows Hrows];
        destruct (export_jobs v i j c w0) as [[n|e'] w'] eqn:Hloop
    end; simpl in Hrows.
    - exists rows. replace (out _) with (out w').
      + rewrite Hrows. destruct verbose; simpl; by rewrite <-app_assoc.
      + by destruct e.
    - exists rows. simpl. rewrite Hrows.
      destruct verbose; simpl; by rewrite <-app_assoc. }
  split; [|split; [|split; [done|split; [apply sorted_items_elem_of|
    split; [apply length_sorted_items|
    split; [apply sorted_items_strict|apply sorted_any_order]]]]]].
  - intros row rows Hout. destruct pairs as [|p pairs'] eqn:Hp.
    + apply sorted_items_nil in Hp as ->.
      rewrite (export_to_csv_empty fuel team verbose w Hget) in Hout.
      assert (out w = out w ++ row :: rows) as Hlen by (by destruct verbose).
      apply (f_equal length) in Hlen. clear Hout. rename Hlen into Hout.
      rewrite length_app in Hout. simpl in Hout. lia.
    + destruct Hwritten as [rows' Hrows']; [done|].
      rewrite Hrows' in Hout. by apply app_inv_head in Hout as [= <- _].
  - intros Hne. apply Hwritten. intros Hnil. by apply sorted_items_nil in Hnil.
Qed.

Lemma header_row_sorted_witness :
  scenario_header = header (sorted_items {[ 7 := PStr "Priority" ]}).*2.
Proof.
  refine (proj1 (header_row_sorted 1 scenario_team false start
                   {[ 7 := PStr "Priority" ]} _) scenario_header [scenario_row] _);
    reflexivity.
Defined.

(** ** An empty schema *)

(** C10: when the team has no custom field definitions, export raises
    [ValueError] at the unpacking of the sorted schema; nothing is written
    to the output, not even the header row, and no count is returned. *)
Theorem empty_schema_raises (fuel : nat) (team : Team) (verbose : bool) (w : io) :
  get_custom_fields team = Ok ∅ →
  (export_to_csv fuel team verbose w).1 = Raised ValueError ∧
  out (export_to_csv fuel team verbose w).2 = out w.
Proof.
  intros Hget. rewrite (export_to_csv_empty fuel team verbose w Hget).
  split; [done|]. by destruct verbose.
Qed.

Lemma empty_schema_raises_witness :
  (export_to_csv 1 bare_team true start).1 = Raised ValueError ∧
  out (export_to_csv 1 bare_team true start).2 = out start.
Proof. apply (empty_schema_raises 1 bare_team true start). reflexivity. Defined.

(** ** The progress marks *)

(** C9: export with and without progress marks writes the same rows to the
    output and ends the same way, with the same count. *)
Theorem verbose_independent (fuel : nat) (team : Team) (w1 w2 : io) :
  out w1 = out w2 →
  (export_to_csv fuel team true w1).1 = (export_to_csv fuel team false w2).1 ∧
  out (export_to_csv fuel team true w1).2
  = out (export_to_csv fuel team false w2).2.
Proof.
  intros Hout. unfold export_to_csv.
  destruct (get_custom_fields team) as [m|e]; [|done].
  destruct (unzip (sorted_items m)) as [[ids names]|e]; [|done].
  destruct (get_all_jobs fuel team) as [jobs e].
  match goal with
  | |- context [export_jobs true ids jobs ?c ?wa] =>
      match goal with
      | |- context [export_jobs false ids jobs c ?wb] =>
          destruct (export_jobs_verbose ids jobs c wa wb) as [H1 H2];
          [simpl; by rewrite Hout|];
          destruct (export_jobs true ids jobs c wa) as [[n1|e1] wa'];
          destruct (export_jobs false ids jobs c wb) as [[n2|e2] wb']
      end
  end; simpl in *; try discriminate.
  - injection H1 as ->. by destruct e.
  - injection H1 as ->. done.
Qed.

Lemma verbose_independent_witness :
  (export_to_csv 1 scenario_team true start).1
  = (export_to_csv 1 scenario_team false start).1 ∧
  out (export_to_csv 1 scenario_team true start).2
  = out (export_to_csv 1 scenario_team false start).2.
Proof. apply (verbose_independent 1 scenario_team start start). reflexivity. Defined.

(** ** Pagination *)

Lemma get_all_jobs_loop_None fuel self :
  get_all_jobs_loop fuel self None = ([], Exhausted).
Proof. by destruct fuel. Qed.

(** One turn of the loop on a page that has an [items] key. *)
Lemma get_all_jobs_loop_page fuel self req response v items :
  execute (service self) req = Ok response →
  dict_lookup "items" response = Some v →
  py_iter v = Ok items →
  get_all_jobs_loop (S fuel) self (Some req)
  = (items ++ (get_all_jobs_loop fuel self (list_next req response)).1,
     (get_all_jobs_loop fuel self (list_next req response)).2).
Proof.
  intros Hex Hv Hit. simpl. rewrite Hex. unfold has_key. rewrite Hv. simpl.
  rewrite Hit. by destruct (get_all_jobs_loop _ _ _).
Qed.

Lemma get_all_jobs_loop_no_items fuel self req response :
  execute (service self) req = Ok response →
  has_key "items" response = false →
  get_all_jobs_loop (S fuel) self (Some req) = ([], Exhausted).
Proof. intros Hex Hno. simpl. by rewrite Hex, Hno. Qed.

Lemma get_all_jobs_loop_walk fuel self request jobs :
  get_all_jobs_loop fuel self request = (jobs, Exhausted) →
  walk self request jobs.
Proof.
  revert request jobs. induction fuel as [|fuel IH]; intros [req|] jobs H;
    simpl in H; try (injection H as <-; constructor); try discriminate.
  destruct (execute (service self) req) as [response|e] eqn:Hex; [|done].
  destruct (has_key "items" response) eqn:Hkey; simpl in H.
  - unfold has_key in Hkey.
    destruct (dict_lookup "items" response) as [v|] eqn:Hv; [|done].
    simpl in H. destruct (py_iter v) as [items|e] eqn:Hit; [|done].
    destruct (get_all_jobs_loop fuel self _) as [rest e] eqn:Hrest.
    injection H as <- ->. eapply walk_page; eauto.
  - injection H as <-. eapply walk_no_items; eauto.
Qed.

Lemma walk_get_all_jobs_loop self request jobs :
  walk self request jobs →
  ∃ fuel, get_all_jobs_loop fuel self request = (jobs, Exhausted).
Proof.
  induction 1 as [|req response Hex Hno
                  |req response v items rest Hex Hv Hit _ [fuel IH]].
  - by exists 0%nat.
  - exists 1%nat. by eapply get_all_jobs_loop_no_items.
  - exists (S fuel). erewrite get_all_jobs_loop_page by done. by rewrite IH.
Qed.

(** More fuel does not change a run that has left the loop. *)
Lemma get_all_jobs_loop_mono fuel fuel' self request jobs :
  (fuel ≤ fuel')%nat →
  get_all_jobs_loop fuel self request = (jobs, Exhausted) →
  get_all_jobs_loop fuel' self request = (jobs, Exhausted).
Proof.
  revert fuel' request jobs.
  induction fuel as [|fuel IH]; intros fuel' [req|] jobs Hle H;
    try (by rewrite get_all_jobs_loop_None, <-H);
    try (simpl in H; discriminate).
  destruct fuel' as [|fuel']; [lia|]. simpl in *.
  destruct (execute (service self) req) as [response|e]; [|done].
  destruct (has_key "items" response); simpl in *; [|done].
  destruct (_ ≫= _) as [items|e]; [|done].
  destruct (get_all_jobs_loop fuel self _) as [rest e] eqn:Hrest.
  injection H as <- ->. erewrite IH; [done|lia|done].
Qed.

(** A page service answers with its pages only. *)
Lemma page_service_execute defs pages req response :
  execute (page_service defs pages) req = Ok response → response ∈ pages.
Proof.
  simpl. intros H.
  assert (∀ i, from_option Ok (Raise HttpError) (pages !! i) = Ok response →
               response ∈ pages) as Hpage.
  { intros i Hi. destruct (pages !! i) as [page|] eqn:Hl; [|done].
    injection Hi as <-. by eapply list_elem_of_lookup_2. }
  destruct (pageToken req) as [[]|]; try discriminate; eauto.
Qed.

(** C3, on the claim as stated: the walk over a single page that has its
    [items] and no cursor ends, although no page that the service answers
    with lacks the [items] key. *)
Lemma walk_ends_with_items_present :
  ¬ (∀ fuel team jobs,
       get_all_jobs fuel team = (jobs, Exhausted) →
       ∃ req response,
         execute (service team) req = Ok response ∧
         has_key "items" response = false).
Proof.
  intros H.
  destruct (H 1%nat scenario_team [scenario_job] eq_refl)
    as (req & response & Hex & Hno).
  apply page_service_execute, list_elem_of_singleton in Hex as ->.
  discriminate Hno.
Qed.

(** C3, amended: the walk leaves the loop exactly at the first page without
    an [items] key or after a page that is followed by no request; a page
    whose [items] list is present and empty hands over to the next request,
    and a last page that has no [items] key, with or without a cursor, ends
    the sequence after the items of the pages before it, without error. *)
Theorem get_all_jobs_ends (self : Team) :
  (∀ request jobs,
     (∃ fuel, get_all_jobs_loop fuel self request = (jobs, Exhausted))
     ↔ walk self request jobs) ∧
  (∀ fuel req response,
     execute (service self) req = Ok response →
     dict_lookup "items" response = Some (PList []) →
     get_all_jobs_loop (S fuel) self (Some req)
     = get_all_jobs_loop fuel self (list_next req response)) ∧
  (∀ fuel req response items next last,
     execute (service self) req = Ok response →
     dict_lookup "items" response = Some (PList items) →
     list_next req response = Some next →
     execute (service self) next = Ok last →
     has_key "items" last = false →
     get_all_jobs_loop (S (S fuel)) self (Some req) = (items, Exhausted)).
Proof.
  split; [|split].
  - intros request jobs. split.
    + intros [fuel H]. by eapply get_all_jobs_loop_walk.
    + apply walk_get_all_jobs_loop.
  - intros fuel req response Hex Hitems.
    erewrite get_all_jobs_loop_page by done.
    by destruct (get_all_jobs_loop _ _ _).
  - intros fuel req response items next last Hex Hitems Hnext Hlast Hno.
    erewrite get_all_jobs_loop_page by done. rewrite Hnext.
    erewrite get_all_jobs_loop_no_items by done. simpl. by rewrite app_nil_r.
Qed.

Lemma get_all_jobs_ends_witness :
  get_all_jobs 2 cursor_team = ([scenario_job], Exhausted).
Proof.
  refine (proj2 (proj2 (get_all_jobs_ends cursor_team)) 0%nat _ _ _ _ _ _ _ _ _ _);
    reflexivity.
Defined.

(** ** The cell Last update *)

Lemma foldl_max_le (l : list Z) x : x ≤ foldl Z.max x l.
Proof.
  revert x. induction l as [|y l IH]; intros x; simpl; [lia|].
  etrans; [|apply IH]. lia.
Qed.

Lemma foldl_max_upper (l : list Z) x : Forall (λ t, t ≤ foldl Z.max x l) l.
Proof.
  revert x. induction l as [|y l IH]; intros x; simpl; constructor.
  - etrans; [|apply foldl_max_le]. lia.
  - apply IH.
Qed.

Lemma foldl_max_elem (l : list Z) x : foldl Z.max x l ∈ x :: l.
Proof.
  revert x. induction l as [|y l IH]; intros x; simpl; [left|].
  specialize (IH (Z.max x y)). apply elem_of_cons in IH as [->|IH].
  - destruct (Z.max_spec x y) as [[_ ->]|[_ ->]]; [right; left|left].
  - by do 2 right.
Qed.

(** [max] gives an element of the sequence that bounds the others. *)
Lemma py_max_Ok l m : py_max l = Ok m → m ∈ l ∧ Forall (λ t, t ≤ m) l.
Proof.
  destruct l as [|x l]; [done|]. simpl. intros [= <-]. split.
  - apply foldl_max_elem.
  - constructor; [apply foldl_max_le | apply foldl_max_upper].
Qed.

Lemma length_append (s1 s2 : string) :
  String.length (s1 +:+ s2) = (String.length s1 + String.length s2)%nat.
Proof. induction s1 as [|c s1 IH]; simpl; [done|by rewrite IH]. Qed.

Lemma length_digits k n : String.length (digits k n) = k.
Proof.
  revert n. induction k as [|k IH]; intros n; simpl; [done|].
  rewrite length_append, IH. simpl. lia.
Qed.

Lemma length_utc_format dt : String.length (utc_format dt) = 23%nat.
Proof.
  unfold utc_format. by rewrite !length_append, !length_digits.
Qed.

Lemma utc_format_not_empty dt : PStr (utc_format dt) ≠ empty_str.
Proof.
  intros H. pose proof (length_utc_format dt) as Hlen.
  unfold empty_str in H. injection H as H. by rewrite H in Hlen.
Qed.

Lemma truthy_utc_format dt : truthy (PStr (utc_format dt)) = true.
Proof.
  simpl. destruct (String.eqb_spec (utc_format dt) EmptyString) as [H|]; [|done].
  apply (f_equal String.length) in H. by rewrite length_utc_format in H.
Qed.

Ltac split_ifs :=
  repeat match goal with
  | |- context [if ?b then _ else _] =>
      let E := fresh "E" in
      destruct b eqn:E;
      [ first [apply Z.ltb_lt in E | apply Z.leb_le in E]
      | first [apply Z.ltb_ge in E | apply Z.leb_gt in E] ]
  end.

(** [civil_from_days] gives a month and a day of the calendar, and the
    date whose day number is the one it was given. *)
Lemma civil_from_days_range n :
  let '(y, m, d) := civil_from_days n in 1 ≤ m ≤ 12 ∧ 1 ≤ d ≤ 31.
Proof.
  unfold civil_from_days. cbv zeta. split_ifs; Z.div_mod_to_equations; lia.
Qed.

Lemma days_from_civil_from_days n :
  let '(y, m, d) := civil_from_days n in days_from_civil y m d = n.
Proof.
  unfold civil_from_days, days_from_civil. cbv zeta.
  split_ifs; Z.div_mod_to_equations; lia.
Qed.

(** The date and time of [utcfromtimestamp] is the one that lies [secs]
    seconds after the epoch. *)
Lemma utcfromtimestamp_timegm secs dt :
  utcfromtimestamp secs = Ok dt →
  timegm dt = secs ∧
  1 ≤ month dt ≤ 12 ∧ 1 ≤ day dt ≤ 31 ∧
  0 ≤ hour dt < 24 ∧ 0 ≤ minute dt < 60 ∧ 0 ≤ second dt < 60.
Proof.
  unfold utcfromtimestamp, timegm.
  pose proof (civil_from_days_range (secs / 86400)) as Hrange.
  pose proof (days_from_civil_from_days (secs / 86400)) as Hdays.
  destruct (double_overflow secs); [done|].
  destruct (civil_from_days (secs / 86400)) as [[y m] d].
  destruct (_ && _); [|done]. intros [= <-]. simpl. rewrite Hdays.
  split; [|split; [lia|split; [lia|]]]; Z.div_mod_to_equations; lia.
Qed.

Lemma yoe_doy_range doe :
  0 ≤ doe ≤ 146096 →
  let yoe := (doe - doe / 1460 + doe / 36524 - doe / 146096) / 365 in
  let doy := doe - (365 * yoe + yoe / 4 - yoe / 100) in
  0 ≤ yoe ≤ 399 ∧ 0 ≤ doy ≤ 365.
Proof. intros H. cbv zeta. Z.div_mod_to_equations; lia. Qed.

(** The 366th day of a year that begins in March is the 29th of February
    of a leap year. *)
Lemma leap_day doe :
  0 ≤ doe ≤ 146096 →
  let yoe := (doe - doe / 1460 + doe / 36524 - doe / 146096) / 365 in
  let doy := doe - (365 * yoe + yoe / 4 - yoe / 100) in
  doy = 365 → (yoe + 1) mod 4 = 0 ∧ ((yoe + 1) mod 100 ≠ 0 ∨ yoe = 399).
Proof.
  intros H. cbv zeta.
  pose proof (yoe_doy_range doe H) as Hy. cbv zeta in Hy.
  set (yoe := (doe - doe / 1460 + doe / 36524 - doe / 146096) / 365) in *.
  intros Hdoy.
  assert (doe / 36524 = 0 ∨ doe / 36524 = 1 ∨ doe / 36524 = 2 ∨
          doe / 36524 = 3 ∨ doe / 36524 = 4) as Hc
    by (Z.div_mod_to_equations; lia).
  assert (yoe / 100 = 0 ∨ yoe / 100 = 1 ∨ yoe / 100 = 2 ∨ yoe / 100 = 3) as Hc2
    by (Z.div_mod_to_equations; lia).
  subst yoe.
  destruct Hc as [Hc|[Hc|[Hc|[Hc|Hc]]]]; destruct Hc2 as [Hc2|[Hc2|[Hc2|Hc2]]];
    Z.div_mod_to_equations; lia.
Qed.

Lemma is_leap_era yoe era :
  (yoe + 1) mod 4 = 0 → (yoe + 1) mod 100 ≠ 0 ∨ yoe = 399 →
  is_leap (yoe + era * 400 + 1) = true.
Proof.
  intros H4 H100. unfold is_leap. apply andb_true_iff. split.
  - apply Z.eqb_eq. Z.div_mod_to_equations; lia.
  - apply orb_true_iff. destruct H100 as [H100| ->].
    + left. apply negb_true_iff, Z.eqb_neq. Z.div_mod_to_equations; lia.
    + right. apply Z.eqb_eq. Z.div_mod_to_equations; lia.
Qed.

(** The date of [civil_from_days] is a date of the calendar: the day is
    within the length of its month. *)
Lemma civil_from_days_valid n :
  let '(y, m, d) := civil_from_days n in
  1 ≤ m ≤ 12 ∧ 1 ≤ d ≤ days_in_month y m.
Proof.
  unfold civil_from_days. cbv zeta.
  set (z := n + 719468). set (era := z / 146097).
  set (doe := z - era * 146097).
  assert (0 ≤ doe ≤ 146096) as Hdoe
    by (subst doe era; Z.div_mod_to_equations; lia).
  pose proof (yoe_doy_range doe Hdoe) as Hy.
  pose proof (leap_day doe Hdoe) as Hl. cbv zeta in Hy, Hl.
  set (yoe := (doe - doe / 1460 + doe / 36524 - doe / 146096) / 365) in *.
  set (doy := doe - (365 * yoe + yoe / 4 - yoe / 100)) in *.
  clearbody doy yoe era.
  set (mp := (5 * doy + 2) / 153).
  assert (0 ≤ mp ≤ 11) as Hmp by (subst mp; Z.div_mod_to_equations; lia).
  assert (∀ k, mp = k → 153 * k ≤ 5 * doy + 2 < 153 * k + 153) as Hk
    by (intros k <-; subst mp; Z.div_mod_to_equations; lia).
  assert (mp = 0 ∨ mp = 1 ∨ mp = 2 ∨ mp = 3 ∨ mp = 4 ∨ mp = 5 ∨ mp = 6 ∨
          mp = 7 ∨ mp = 8 ∨ mp = 9 ∨ mp = 10 ∨ mp = 11) as Hcase by lia.
  clearbody mp. unfold days_in_month.
  destruct Hcase as [H|[H|[H|[H|[H|[H|[H|[H|[H|[H|[H|H]]]]]]]]]]];
    pose proof (Hk _ H) as Hb; subst mp;
    repeat match goal with
    | |- context [?a =? ?b] => destruct (Z.eqb_spec a b)
    | |- context [?a <=? ?b] => destruct (Z.leb_spec a b)
    | |- context [?a <? ?b] => destruct (Z.ltb_spec a b)
    end; cbn [orb]; try (Z.div_mod_to_equations; lia).
  all: destruct (Z.eq_dec doy 365) as [E|E];
    [ destruct (Hl E) as [H4 H100]; rewrite (is_leap_era _ _ H4 H100)
    | destruct (is_leap _) ]; Z.div_mod_to_equations; lia.
Qed.

(** The date and time of [utcfromtimestamp] is a date of the calendar and
    a time of the day, and lies [secs] seconds after the epoch. *)
Lemma utcfromtimestamp_calendar secs dt :
  utcfromtimestamp secs = Ok dt →
  days_from_civil (year dt) (month dt) (day dt) * 86400
    + hour dt * 3600 + minute dt * 60 + second dt = secs ∧
  1 ≤ year dt ≤ 9999 ∧
  1 ≤ month dt ≤ 12 ∧ 1 ≤ day dt ≤ days_in_month (year dt) (month dt) ∧
  0 ≤ hour dt < 24 ∧ 0 ≤ minute dt < 60 ∧ 0 ≤ second dt < 60.
Proof.
  intros H. destruct (utcfromtimestamp_timegm secs dt H) as (Ht & _ & _ & Hrest).
  split; [done|]. revert H. unfold utcfromtimestamp.
  destruct (double_overflow secs); [done|].
  pose proof (civil_from_days_valid (secs / 86400)) as Hvalid.
  destruct (civil_from_days (secs / 86400)) as [[y m] d].
  destruct (Z.leb_spec 1 y); [|done]. destruct (Z.leb_spec y 9999); [|done].
  intros [= <-]. simpl in *. repeat split; lia.
Qed.

(** The digits that [strftime] prints, as numbers in decimal. *)
Lemma digits_pad2 n : 0 ≤ n < 100 → digits 2 n = pad2 n.
Proof.
  intros Hn.
  assert (forallb (λ i, bool_decide (digits 2 i = pad2 i)) (seqZ 0 100) = true)
    as H by (vm_compute; reflexivity).
  rewrite forallb_forall in H. specialize (H n).
  apply bool_decide_eq_true in H; [done|].
  apply list_elem_of_In, elem_of_seqZ. lia.
Qed.

Lemma digits_4 y : digits 4 y = digits 2 (y / 100) +:+ digits 2 (y mod 100).
Proof.
  cbn [digits].
  replace (y / 10 / 10 / 10 mod 10) with (y / 100 / 10 mod 10)
    by (Z.div_mod_to_equations; lia).
  replace (y / 10 / 10 mod 10) with (y / 100 mod 10)
    by (Z.div_mod_to_equations; lia).
  replace (y / 10 mod 10) with (y mod 100 / 10 mod 10)
    by (Z.div_mod_to_equations; lia).
  replace (y mod 10) with (y mod 100 mod 10) at 1
    by (Z.div_mod_to_equations; lia).
  reflexivity.
Qed.

Lemma utc_format_text dt :
  1000 ≤ year dt ≤ 9999 →
  0 ≤ month dt < 100 → 0 ≤ day dt < 100 →
  0 ≤ hour dt < 100 → 0 ≤ minute dt < 100 → 0 ≤ second dt < 100 →
  utc_format dt
  = (pad2 (year dt / 100) +:+ pad2 (year dt mod 100)) +:+ "-" +:+
    pad2 (month dt) +:+ "-" +:+ pad2 (day dt) +:+ " " +:+
    pad2 (hour dt) +:+ ":" +:+ pad2 (minute dt) +:+ ":" +:+
    pad2 (second dt) +:+ " UTC".
Proof.
  intros Hy Hmo Hd Hh Hmi Hs. unfold utc_format.
  rewrite digits_4, !digits_pad2 by (try done; Z.div_mod_to_equations; lia).
  done.
Qed.

(** The steps of [last_update], one by one. *)
Lemma last_update_Ok job cell :
  last_update job = Ok cell →
  ∃ m dt, last_change job = Ok m ∧ utcfromtimestamp (m / 1000) = Ok dt ∧
          (m ≠ 0 → 1900 ≤ year dt) ∧
          cell = if m =? 0 then empty_str else PStr (utc_format dt).
Proof.
  unfold last_update. intros H. inv_bind H. inv_bind H.
  exists a, a0. split; [done|]. split; [done|].
  destruct (Z.eqb_spec a 0) as [->|Hne]; [by injection H|].
  inv_bind H. unfold strftime in Ha1.
  destruct (Z.ltb_spec (year a0) 1900); [done|].
  injection Ha1 as <-. unfold py_or in H. rewrite truthy_utc_format in H.
  split; [done|]. by injection H.
Qed.

Lemma job_row_last_update ids job row :
  job_row ids job = Ok row →
  ∃ cell, last_update job = Ok cell ∧ row !! 1%nat = Some cell.
Proof.
  unfold job_row. intros H. inv_bind H. exists a. split; [done|].
  repeat inv_bind H. by injection H as <-.
Qed.

(** C4: the cell Last update of a row is the greatest of the timestamps of
    the job's changes, a change without timestamp counting as 0 and a
    missing or empty list of changes as the single timestamp 0, taken from
    milliseconds to the date of the Gregorian calendar and the time of the
    day that lie so many whole seconds after the epoch, and printed as
    [YYYY-MM-DD HH:MM:SS UTC] in decimal digits, two for each part and four
    for the year; it is the empty string exactly when that maximum is 0, as
    it is for every job without changes. *)
Theorem last_update_cell (ids : list Z) (job : pyval) (row : list pyval) :
  job_row ids job = Ok row →
  (∃ changes stamps m dt,
     (c ← py_get job "jobChange" PNone; py_iter (py_or c (PList [PDict []])))
       = Ok changes ∧
     Forall2 (λ c t, change_timestamp c = Ok t) changes stamps ∧
     m ∈ stamps ∧ Forall (λ t, t ≤ m) stamps ∧
     utcfromtimestamp (m / 1000) = Ok dt ∧
     days_from_civil (year dt) (month dt) (day dt) * 86400
       + hour dt * 3600 + minute dt * 60 + second dt = m / 1000 ∧
     1 ≤ month dt ≤ 12 ∧ 1 ≤ day dt ≤ days_in_month (year dt) (month dt) ∧
     0 ≤ hour dt < 24 ∧ 0 ≤ minute dt < 60 ∧ 0 ≤ second dt < 60 ∧
     (m ≠ 0 → 1900 ≤ year dt ≤ 9999) ∧
     (let two := λ n, if n <? 10 then "0" +:+ pretty n else pretty n in
      row !! 1%nat
      = Some (if m =? 0 then empty_str
              else PStr ((two (year dt / 100) +:+ two (year dt mod 100)) +:+
                         "-" +:+ two (month dt) +:+ "-" +:+ two (day dt) +:+
                         " " +:+ two (hour dt) +:+ ":" +:+ two (minute dt) +:+
                         ":" +:+ two (second dt) +:+ " UTC"))) ∧
     (row !! 1%nat = Some empty_str ↔ m = 0)) ∧
  (∀ c, py_get c "timestamp" PNone = Ok PNone → change_timestamp c = Ok 0) ∧
  (∀ changes, py_get job "jobChange" PNone = Ok changes →
     changes = PNone ∨ changes = PList [] →
     last_change job = Ok 0 ∧ row !! 1%nat = Some empty_str).
Proof.
  intros Hrow.
  destruct (job_row_last_update _ _ _ Hrow) as (cell & Hcell & Hrow1).
  destruct (last_update_Ok _ _ Hcell) as (m & dt & Hm & Hdt & Hyear & ->).
  destruct (utcfromtimestamp_calendar _ _ Hdt)
    as (Hsecs & Hy & Hmo & Hd & Hh & Hmi & Hs).
  assert (1 ≤ days_in_month (year dt) (month dt) ≤ 31) as Hlen.
  { unfold days_in_month.
    repeat match goal with |- context [if ?b then _ else _] => destruct b end;
      lia. }
  split; [|split].
  - unfold last_change in Hm. inv_bind Hm. inv_bind Hm. inv_bind Hm.
    apply py_max_Ok in Hm as [Hin Hle]. apply map_result_Forall2 in Ha1.
    exists a0, a1, m, dt. rewrite Ha. cbn [mbind result_bind].
    do 11 (split; [done|]).
    split; [intros Hne; specialize (Hyear Hne); lia|]. split; [|split].
    + cbv zeta. rewrite Hrow1. destruct (Z.eqb_spec m 0) as [|Hne]; [done|].
      specialize (Hyear Hne).
      rewrite utc_format_text by lia. done.
    + rewrite Hrow1. destruct (Z.eqb_spec m 0); [done|].
      intros H. exfalso. apply (utc_format_not_empty dt). congruence.
    + intros ->. by rewrite Hrow1.
  - intros c Hc. unfold change_timestamp. by rewrite Hc.
  - intros changes Hget Hch.
    assert (last_change job = Ok 0) as H0.
    { unfold last_change. rewrite Hget. by destruct Hch as [-> | ->]. }
    split; [done|]. rewrite H0 in Hm. injection Hm as <-. done.
Qed.

Lemma last_update_cell_witness :
  ∃ changes stamps m dt,
    (c ← py_get dated_job "jobChange" PNone;
     py_iter (py_or c (PList [PDict []]))) = Ok changes ∧
    Forall2 (λ c t, change_timestamp c = Ok t) changes stamps ∧
    m ∈ stamps ∧ Forall (λ t, t ≤ m) stamps ∧
    utcfromtimestamp (m / 1000) = Ok dt ∧
    days_from_civil (year dt) (month dt) (day dt) * 86400
      + hour dt * 3600 + minute dt * 60 + second dt = m / 1000 ∧
    1 ≤ month dt ≤ 12 ∧ 1 ≤ day dt ≤ days_in_month (year dt) (month dt) ∧
    0 ≤ hour dt < 24 ∧ 0 ≤ minute dt < 60 ∧ 0 ≤ second dt < 60 ∧
    (m ≠ 0 → 1900 ≤ year dt ≤ 9999) ∧
    (let two := λ n, if n <? 10 then "0" +:+ pretty n else pretty n in
     dated_row !! 1%nat
     = Some (if m =? 0 then empty_str
             else PStr ((two (year dt / 100) +:+ two (year dt mod 100)) +:+
                        "-" +:+ two (month dt) +:+ "-" +:+ two (day dt) +:+
                        " " +:+ two (hour dt) +:+ ":" +:+ two (minute dt) +:+
                        ":" +:+ two (second dt) +:+ " UTC"))) ∧
    (dated_row !! 1%nat = Some empty_str ↔ m = 0).
Proof.
  refine (proj1 (last_update_cell [7] dated_job dated_row _)).
  reflexivity.
Defined.

(** ** Well-formed jobs have rows *)

(** From the epoch to the last day of the year 9999 the year stays between
    1970 and 9999. *)
Lemma civil_from_days_year n :
  0 ≤ n ≤ 2932896 →
  let '(y, m, d) := civil_from_days n in 1970 ≤ y ≤ 9999.
Proof.
  intros Hn. unfold civil_from_days. cbv zeta.
  set (z := n + 719468). set (era := z / 146097).
  set (doe := z - era * 146097).
  assert (0 ≤ doe ≤ 146096) as Hdoe
    by (subst doe era; Z.div_mod_to_equations; lia).
  assert (4 ≤ era ≤ 24) as Hera by (subst era z; Z.div_mod_to_equations; lia).
  pose proof (yoe_doy_range doe Hdoe) as Hy. cbv zeta in Hy.
  set (yoe := (doe - doe / 1460 + doe / 36524 - doe / 146096) / 365) in *.
  set (doy := doe - (365 * yoe + yoe / 4 - yoe / 100)) in *.
  assert (era = 4 → 135080 ≤ doe) by (subst doe z; lia).
  assert (era = 24 → doe ≤ 146036) by (subst doe z; lia).
  clearbody yoe doe era.
  assert (yoe ≤ 368 ∨ yoe = 369 ∨ 370 ≤ yoe ≤ 398 ∨ yoe = 399) as Hc by lia.
  assert (era = 4 ∨ 5 ≤ era ≤ 23 ∨ era = 24) as He by lia.
  set (mp := (5 * doy + 2) / 153).
  assert (0 ≤ mp ≤ 11 ∧ (mp < 10 ↔ doy < 306)) as Hmp
    by (subst mp; Z.div_mod_to_equations; lia).
  clearbody mp. subst doy.
  destruct (Z.ltb_spec mp 10); split_ifs;
    destruct Hc as [Hc|[Hc|[Hc|Hc]]]; destruct He as [He|[He|He]];
    Z.div_mod_to_equations; lia.
Qed.

Lemma no_double_overflow z :
  Z.abs z < 2 ^ 64 → double_overflow z = false.
Proof.
  intros Hz. unfold double_overflow. apply Z.leb_gt.
  eapply Z.lt_le_trans; [exact Hz|]. by vm_compute.
Qed.

Lemma in_range_spec z : in_range z = true ↔ 0 ≤ z < 253402300800000.
Proof. unfold in_range. by rewrite andb_true_iff, Z.leb_le, Z.ltb_lt. Qed.

Lemma utcfromtimestamp_in_range z :
  in_range z = true →
  ∃ dt, utcfromtimestamp (z / 1000) = Ok dt ∧ strftime dt = Ok (utc_format dt).
Proof.
  intros Hz%in_range_spec. unfold utcfromtimestamp, strftime.
  rewrite no_double_overflow by (Z.div_mod_to_equations; lia).
  pose proof (civil_from_days_year (z / 1000 / 86400)) as Hy.
  destruct (civil_from_days (z / 1000 / 86400)) as [[y m] d].
  assert (1970 ≤ y ≤ 9999) as Hy' by (apply Hy; Z.div_mod_to_equations; lia).
  assert ((1 <=? y) && (y <=? 9999) = true) as ->.
  { apply andb_true_iff. split; apply Z.leb_le; lia. }
  eexists. split; [done|]. simpl.
  destruct (Z.ltb_spec y 1900); [lia|done].
Qed.

Lemma change_timestamp_wf c :
  wf_change c = true → ∃ t, change_timestamp c = Ok t ∧ in_range t = true.
Proof.
  destruct c as [| | | | | |d]; try discriminate. unfold change_timestamp.
  simpl. destruct (dict_lookup "timestamp" d) as [[| |z| |s| |]|];
    simpl; try discriminate; unfold py_or; simpl; eauto.
  - intros Hz. destruct (Z.eqb_spec z 0) as [->|]; simpl; eauto.
  - destruct (int_of_string s) as [z|] eqn:Hs.
    + intros Hz. destruct (String.eqb_spec s EmptyString) as [->|]; [done|].
      simpl. rewrite Hs. eauto.
    + intros ->. simpl. eauto.
Qed.

Lemma map_result_wf {A B} (f : A → result B) (wf : A → bool) (P : B → Prop) l :
  (∀ x, wf x = true → ∃ y, f x = Ok y ∧ P y) →
  forallb wf l = true → ∃ k, map_result f l = Ok k ∧ Forall P k.
Proof.
  intros Hf. induction l as [|x l IH]; simpl.
  - by exists [].
  - intros [Hx Hl]%andb_true_iff. destruct (Hf x Hx) as (y & -> & Hy).
    destruct (IH Hl) as (k & -> & Hk). exists (y :: k). by split; [|constructor].
Qed.

Lemma last_change_wf d :
  wf_changes (default PNone (dict_lookup "jobChange" d)) = true →
  ∃ m, last_change (PDict d) = Ok m ∧ in_range m = true.
Proof.
  unfold last_change. simpl.
  assert (∀ changes, changes ≠ [] → forallb wf_change changes = true →
    ∃ m, (stamps ← map_result change_timestamp changes; py_max stamps) = Ok m
         ∧ in_range m = true) as Hmax.
  { intros changes Hne Hwf.
    destruct (map_result_wf change_timestamp wf_change
                (λ t, in_range t = true) changes change_timestamp_wf Hwf)
      as (stamps & Hstamps & Hrange).
    rewrite Hstamps. simpl. destruct (py_max stamps) as [m|e] eqn:Hm.
    - exists m. split; [done|]. apply py_max_Ok in Hm as [Hin _].
      rewrite Forall_forall in Hrange. by apply Hrange.
    - destruct stamps; [|done]. apply map_result_length in Hstamps.
      by destruct changes. }
  destruct (dict_lookup "jobChange" d) as [[| | | | |changes|]|];
    simpl; try discriminate.
  - intros _. by apply (Hmax [PDict []]).
  - intros Hwf. unfold py_or. destruct changes as [|c changes].
    + by apply (Hmax [PDict []]).
    + by apply Hmax.
  - intros _. by apply (Hmax [PDict []]).
Qed.

Lemma last_update_wf d :
  wf_changes (default PNone (dict_lookup "jobChange" d)) = true →
  ∃ cell, last_update (PDict d) = Ok cell.
Proof.
  intros (m & Hm & Hrange)%last_change_wf. unfold last_update. rewrite Hm.
  cbn [mbind result_bind].
  destruct (utcfromtimestamp_in_range m Hrange) as (dt & -> & Hfmt).
  cbn [mbind result_bind]. destruct (m =? 0); [eauto|].
  rewrite Hfmt. simpl. eauto.
Qed.

Lemma py_join_str_list sep v :
  str_list v = true → ∃ s, py_join sep v = Ok (PStr s).
Proof.
  destruct v as [| | | | |l|]; try discriminate. simpl. intros Hl.
  unfold py_join. simpl.
  destruct (map_result_wf as_str is_str (λ _, True) l) as (strs & -> & _);
    [|done|by eauto].
  intros [] ?; try discriminate. simpl. eauto.
Qed.

Lemma custom_entry_wf field :
  wf_field field = true → ∃ entry, custom_entry field = Ok entry ∧ True.
Proof.
  destruct field as [| | | | | |d]; try discriminate. unfold custom_entry.
  simpl. destruct (dict_lookup "customFieldId" d) as [[| |z| |s| |]|];
    simpl; try discriminate; unfold py_or; simpl; eauto.
  - intros _. destruct (z =? 0); simpl; eauto.
  - destruct (int_of_string s) as [z|] eqn:Hs.
    + intros _. destruct (String.eqb_spec s EmptyString) as [->|]; [done|].
      simpl. rewrite Hs. simpl. eauto.
    + intros ->. simpl. eauto.
Qed.

Lemma job_custom_wf d :
  wf_custom_fields (default PNone (dict_lookup "customFields" d)) = true →
  ∃ custom, job_custom (PDict d) = Ok custom.
Proof.
  unfold job_custom. simpl.
  destruct (dict_lookup "customFields" d) as [[| | | | | |cf]|];
    simpl; try discriminate; [by eauto| |by eauto].
  assert ((f ← py_get (py_or (PDict cf) (PDict [])) "customField" PNone;
           fields ← py_iter (py_or f (PDict []));
           entries ← map_result custom_entry fields;
           Ok (dict_of_pairs entries))
          = (fields ← py_iter (py_or (default PNone (dict_lookup "customField" cf))
                                 (PDict []));
             entries ← map_result custom_entry fields;
             Ok (dict_of_pairs entries))) as ->.
  { by destruct cf. }
  destruct (dict_lookup "customField" cf) as [[| | | | |fields|]|];
    simpl; try discriminate; [|by eauto].
  intros Hwf. unfold py_or. destruct fields as [|field fields]; [by eauto|].
  cbn [truthy py_iter mbind result_bind].
  destruct (map_result_wf custom_entry wf_field (λ _, True) (field :: fields)
              custom_entry_wf Hwf) as (entries & -> & _).
  simpl. eauto.
Qed.

(** Every well-formed job has a row. *)
Lemma wf_job_row ids job :
  wf_job job = true → ∃ row, job_row ids job = Ok row.
Proof.
  destruct job as [| | | | | |d]; try discriminate. simpl.
  intros [[Hid Hchanges]%andb_true_iff Hstate]%andb_true_iff.
  unfold job_row.
  destruct (last_update_wf d Hchanges) as [cell ->].
  cbn [mbind result_bind py_get].
  destruct (dict_lookup "state" d) as [[| | | | | |state]|];
    try discriminate. simpl in Hstate.
  apply andb_true_iff in Hstate as [[Hloc Hnote]%andb_true_iff Hcustom].
  destruct (job_custom_wf state Hcustom) as [custom Hc].
  cbn [from_option id mbind result_bind py_get].
  destruct (dict_lookup "location" state) as [[| | | | | |location]|];
    try discriminate. simpl in Hloc.
  cbn [from_option id mbind result_bind py_get]. rewrite Hc.
  cbn [mbind result_bind py_item]. unfold has_key in Hid.
  destruct (dict_lookup "id" d) as [job_id|]; [|done].
  cbn [mbind result_bind].
  destruct (py_join_str_list " / " _ Hnote) as [notes ->].
  destruct (dict_lookup "addressLine" location) as [lines|];
    cbn [from_option id mbind result_bind].
  - destruct (py_join_str_list " / " _ Hloc) as [address ->]. simpl. eauto.
  - simpl. eauto.
Qed.

Lemma wf_jobs_rows ids jobs :
  forallb wf_job jobs = true →
  ∃ rows, Forall2 (λ job row, job_row ids job = Ok row) jobs rows.
Proof.
  intros Hwf.
  destruct (map_result_wf (job_row ids) wf_job (λ _, True) jobs) as (rows & H & _);
    [|done|].
  - intros job Hjob. destruct (wf_job_row ids job Hjob) as [row ->]. eauto.
  - exists rows. by apply map_result_Forall2.
Qed.

(** ** Rows and count *)

(** C5: export writes one data row per job that the walk yields, in the
    order in which the jobs are yielded, and returns the number of jobs,
    which is the number of data rows; well-formed jobs all have their row;
    without jobs the output is the header row alone and the count is 0.  In
    the other direction, whenever export returns a count, the output and
    the count are of that form. *)
Theorem export_rows (fuel : nat) (team : Team) (verbose : bool) (w : io)
    (custom_fields : gmap Z pyval) (ids : list Z) (names : list pyval)
    (jobs : list pyval) :
  get_custom_fields team = Ok custom_fields →
  unzip (sorted_items custom_fields) = Ok (ids, names) →
  get_all_jobs fuel team = (jobs, Exhausted) →
  (∀ rows, Forall2 (λ job row, job_row ids job = Ok row) jobs rows →
     length rows = length jobs ∧
     ∃ w', export_to_csv fuel team verbose w = (Returned (length jobs), w') ∧
           out w' = out w ++ header names :: rows) ∧
  (forallb wf_job jobs = true →
     ∃ rows, Forall2 (λ job row, job_row ids job = Ok row) jobs rows) ∧
  (jobs = [] →
     ∃ w', export_to_csv fuel team verbose w = (Returned 0%nat, w') ∧
           out w' = out w ++ [header names]) ∧
  (∀ fuel' count w',
     export_to_csv fuel' team verbose w = (Returned count, w') →
     ∃ jobs' rows',
       get_all_jobs fuel' team = (jobs', Exhausted) ∧
       Forall2 (λ job row, job_row ids job = Ok row) jobs' rows' ∧
       out w' = out w ++ header names :: rows' ∧
       count = length jobs' ∧ count = length rows').
Proof.
  intros Hget Hzip Hjobs.
  assert (∀ rows, Forall2 (λ job row, job_row ids job = Ok row) jobs rows →
     length rows = length jobs ∧
     ∃ w', export_to_csv fuel team verbose w = (Returned (length jobs), w') ∧
           out w' = out w ++ header names :: rows) as Hex.
  { intros rows Hrows. split; [symmetry; by eapply Forall2_length|].
    unfold export_to_csv. rewrite Hget, Hzip, Hjobs.
    apply map_result_Forall2 in Hrows.
    match goal with
    | |- context [export_jobs verbose ids jobs 0 ?w0] =>
        destruct (export_jobs_rows verbose ids jobs rows 0 w0 Hrows)
          as (w' & -> & Hout)
    end.
    exists w'. split; [done|]. rewrite Hout.
    destruct verbose; simpl; by rewrite <-app_assoc. }
  split; [done|]. split; [apply wf_jobs_rows|]. split.
  - intros ->. by destruct (Hex [] ltac:(constructor)) as [_ ?].
  - intros fuel' count w' H. unfold export_to_csv in H.
    rewrite Hget, Hzip in H.
    destruct (get_all_jobs fuel' team) as [jobs' e].
    match type of H with
    | context [export_jobs verbose ids jobs' 0 ?w0] =>
        destruct (export_jobs verbose ids jobs' 0 w0) as [[n|e'] w1] eqn:Hloop
    end; [|done].
    destruct e; try done. injection H as -> ->.
    destruct (export_jobs_Ok _ _ _ _ _ _ _ Hloop) as [rows' Hrows'].
    match type of Hloop with
    | export_jobs _ _ _ _ ?w0 = _ =>
        destruct (export_jobs_rows verbose ids jobs' rows' 0 w0 Hrows')
          as (w2 & Heq & Hout)
    end.
    rewrite Heq in Hloop. injection Hloop as <- <-.
    exists jobs', rows'. split; [done|].
    split; [by apply map_result_Forall2|]. split.
    + rewrite Hout. destruct verbose; simpl; by rewrite <-app_assoc.
    + apply map_result_length in Hrows'. simpl. lia.
Qed.

Lemma export_rows_witness :
  (∃ w', export_to_csv 1 scenario_team true start = (Returned 1%nat, w') ∧
         out w' = out start ++ header [PStr "Priority"] :: [scenario_row]) ∧
  (∃ w', export_to_csv 1 idle_team true start = (Returned 0%nat, w') ∧
         out w' = out start ++ [header [PStr "Priority"]]).
Proof.
  split.
  - refine (proj2 (proj1 (export_rows 1 scenario_team true start
             {[ 7 := PStr "Priority" ]} [7] [PStr "Priority"]
             [scenario_job] _ _ _) [scenario_row] _)); try reflexivity.
    repeat constructor.
  - refine (proj1 (proj2 (proj2 (export_rows 1 idle_team true start
             {[ 7 := PStr "Priority" ]} [7] [PStr "Priority"] [] _ _ _))) _);
      reflexivity.
Defined.

(** ** The custom field cells *)

Lemma foldl_insert_lookup (l : list (Z * pyval)) (m0 : gmap Z pyval) k :
  (∀ v, foldl (λ m kv, <[kv.1 := kv.2]> m) m0 l !! k = Some v →
        (k, v) ∈ l ∨ m0 !! k = Some v) ∧
  (foldl (λ m kv, <[kv.1 := kv.2]> m) m0 l !! k = None ↔
     (k ∉ l.*1) ∧ m0 !! k = None).
Proof.
  revert m0. induction l as [|[k' v'] l IH]; intros m0; simpl.
  - split; [auto|]. split; [|by intros [_ ?]].
    intros H. split; [|done]. by intros ?%elem_of_nil.
  - destruct (IH (<[k' := v']> m0)) as [IH1 IH2]. split.
    + intros v Hv. apply IH1 in Hv as [Hin|Hm0]; [left; by right|].
      apply lookup_insert_Some in Hm0 as [[-> ->]|[_ Hm0]]; [left; left|by right].
    + rewrite IH2, lookup_insert_None, not_elem_of_cons.
      intuition congruence.
Qed.

(** A value found in [custom] is the value of an entry with that id, and
    an id is missing from [custom] exactly when no entry has it. *)
Lemma dict_of_pairs_lookup_Some l k v :
  dict_of_pairs l !! k = Some v → (k, v) ∈ l.
Proof.
  intros H. apply foldl_insert_lookup in H as [H|H]; [done|].
  by rewrite lookup_empty in H.
Qed.

Lemma dict_of_pairs_lookup_None l k :
  dict_of_pairs l !! k = None ↔ k ∉ (l.*1).
Proof.
  unfold dict_of_pairs.
  rewrite (proj2 (foldl_insert_lookup l ∅ k)), lookup_empty. tauto.
Qed.

(** Of several entries with one id the last one counts. *)
Lemma dict_of_pairs_last l1 l2 k v :
  k ∉ (l2.*1) → dict_of_pairs (l1 ++ (k, v) :: l2) !! k = Some v.
Proof.
  intros Hnotin. unfold dict_of_pairs. rewrite foldl_app. simpl.
  destruct (foldl _ (<[k:=v]> _) l2 !! k) as [v'|] eqn:Hl.
  - apply foldl_insert_lookup in Hl as [Hin|Hl].
    + exfalso. apply Hnotin. apply list_elem_of_fmap. by exists (k, v').
    + by rewrite lookup_insert_eq in Hl.
  - apply foldl_insert_lookup in Hl as [_ Hl]. by rewrite lookup_insert_eq in Hl.
Qed.

Lemma custom_cells_lookup custom ids i id :
  ids !! i = Some id →
  custom_cells custom ids !! i = Some (default empty_str (custom !! id)).
Proof. intros H. unfold custom_cells. by rewrite list_lookup_fmap, H. Qed.


(** The steps of [job_row] that concern the custom fields. *)
Lemma job_row_custom ids job row :
  job_row ids job = Ok row →
  ∃ state custom,
    py_get job "state" PNone = Ok state ∧ job_custom state = Ok custom ∧
    drop 11 row = custom_cells custom ids.
Proof.
  unfold job_row. intros H. inv_bind H. inv_bind H. inv_bind H. inv_bind H.
  exists a0, a2. split; [done|]. split; [done|].
  repeat inv_bind H. by injection H as <-.
Qed.

(** The eleven fixed cells of a row. *)
Lemma job_row_cells ids job row :
  job_row ids job = Ok row →
  ∃ state id timestamp address lat lng notes rest,
    py_get job "state" PNone = Ok (PDict state) ∧
    row = [id; timestamp;
           default empty_str (dict_lookup "title" state);
           default empty_str (dict_lookup "assignee" state);
           default empty_str (dict_lookup "progress" state);
           address; lat; lng;
           default PNone (dict_lookup "customerName" state);
           default PNone (dict_lookup "customerPhoneNumber" state);
           notes] ++ rest.
Proof.
  unfold job_row. intros H. inv_bind H. inv_bind H.
  destruct a0 as [| | | | | |state]; try discriminate H.
  repeat inv_bind H. injection H as <-.
  simpl in *. simplify_eq.
  by repeat eexists.
Qed.






(** ** Jobs with missing parts *)

(** Runs the steps of [job_row] one after the other; a step that raises
    settles the goal. *)
Ltac step_row :=
  match goal with
  | |- ∃ e, (?r ≫= _) = Raise e =>
      destruct r eqn:?; cbn [mbind result_bind]; [|by eauto]
  end.

(** A job without [state], a state without [location] and a state without
    [note] have no row: [job_row] raises. *)
Lemma job_row_missing ids job d :
  job = PDict d →
  dict_lookup "state" d = None ∨
  (∃ state, dict_lookup "state" d = Some (PDict state) ∧
            (dict_lookup "location" state = None ∨
             dict_lookup "note" state = None)) →
  ∃ e, job_row ids job = Raise e.
Proof.
  intros -> H. unfold job_row. step_row.
  destruct H as [Hstate|(state & Hstate & [Hloc|Hnote])].
  - assert (py_get (PDict d) "state" PNone = Ok PNone) as ->.
    { simpl. by rewrite Hstate. }
    cbn [mbind result_bind]. simpl. eauto.
  - assert (py_get (PDict d) "state" PNone = Ok (PDict state)) as ->.
    { simpl. by rewrite Hstate. }
    cbn [mbind result_bind].
    assert (py_get (PDict state) "location" PNone = Ok PNone) as ->.
    { simpl. by rewrite Hloc. }
    cbn [mbind result_bind]. do 5 step_row. simpl. eauto.
  - assert (py_get (PDict d) "state" PNone = Ok (PDict state)) as ->.
    { simpl. by rewrite Hstate. }
    cbn [mbind result_bind]. do 11 step_row.
    assert (py_get (PDict state) "note" PNone = Ok PNone) as ->.
    { simpl. by rewrite Hnote. }
    cbn [mbind result_bind]. simpl. eauto.
Qed.

(** Such a job ends the export wherever it comes in the sequence: the rows
    of the jobs before it are in the output, those of the jobs after it are
    not, and export raises instead of returning a count. *)
Lemma export_stops_at_missing fuel team verbose w custom_fields ids names
    jobs rows job d rest e :
  get_custom_fields team = Ok custom_fields →
  unzip (sorted_items custom_fields) = Ok (ids, names) →
  get_all_jobs fuel team = (jobs ++ job :: rest, e) →
  Forall2 (λ job row, job_row ids job = Ok row) jobs rows →
  job = PDict d →
  dict_lookup "state" d = None ∨
  (∃ state, dict_lookup "state" d = Some (PDict state) ∧
            (dict_lookup "location" state = None ∨
             dict_lookup "note" state = None)) →
  ∃ ex w', export_to_csv fuel team verbose w = (Raised ex, w') ∧
           out w' = out w ++ header names :: rows.
Proof.
  intros Hget Hzip Hjobs Hrows Hjob Hmissing.
  destruct (job_row_missing ids job d Hjob Hmissing) as [ex Hex].
  apply map_result_Forall2 in Hrows.
  unfold export_to_csv. rewrite Hget, Hzip, Hjobs.
  match goal with
  | |- context [export_jobs verbose ids _ 0 ?w0] =>
      destruct (export_jobs_Raise verbose ids jobs rows job ex rest 0 w0
                  Hrows Hex) as (w' & -> & Hout)
  end.
  exists ex, w'. split; [done|]. rewrite Hout.
  destruct verbose; simpl; by rewrite <-app_assoc.
Qed.

(** C7, on the code: the job without [note] comes first and raises
    [TypeError] at the [join] of its notes; export ends with that exception
    after the header row, and the row of the well-formed job behind it is
    never written. *)
Theorem noteless_job_aborts (fuel : nat) (verbose : bool) :
  job_row [7] noteless_job = Raise TypeError ∧
  job_row [7] scenario_job = Ok scenario_row ∧
  get_all_jobs (S fuel) noteless_team
    = ([noteless_job; scenario_job], Exhausted) ∧
  ∃ w, export_to_csv (S fuel) noteless_team verbose start = (Raised TypeError, w)
       ∧ out w = [scenario_header].
Proof.
  split; [reflexivity|]. split; [reflexivity|]. split; [by destruct fuel|].
  destruct fuel, verbose; eexists; (split; [vm_compute; reflexivity|]);
    reflexivity.
Qed.

(** ** The contact cells *)

(** C8, on the claim as stated: the job J3 has a row and its state has no
    [customerName], and the cell Contact name of the row is [None], not the
    empty string that a missing title gives. *)
Lemma contact_cell_not_empty_string :
  ¬ (∀ ids job row state,
       job_row ids job = Ok row →
       py_get job "state" PNone = Ok (PDict state) →
       dict_lookup "customerName" state = None →
       row !! 8%nat = Some empty_str).
Proof.
  intros H.
  specialize (H [7] sparse_job sparse_row
                [("location", PDict []); ("note", PList [])]
                eq_refl eq_refl eq_refl).
  discriminate H.
Qed.

(** C8, amended: when the state of a job has no [customerName] or no
    [customerPhoneNumber], the cell Contact name or Contact phone of its
    row is [None], passed on without a default, which the writer prints as
    the empty field; the cells Title, Assignee and Progress of a state
    without these fields are the empty string, printed as the empty field
    too. *)
Theorem contact_cells_default (ids : list Z) (job : pyval) (row : list pyval)
    (state : pydict) :
  job_row ids job = Ok row →
  py_get job "state" PNone = Ok (PDict state) →
  (dict_lookup "customerName" state = None →
     row !! 8%nat = Some PNone ∧
     field_text <$> row !! 8%nat = Some (Some EmptyString)) ∧
  (dict_lookup "customerPhoneNumber" state = None →
     row !! 9%nat = Some PNone ∧
     field_text <$> row !! 9%nat = Some (Some EmptyString)) ∧
  (dict_lookup "title" state = None →
     row !! 2%nat = Some (PStr EmptyString) ∧
     field_text <$> row !! 2%nat = Some (Some EmptyString)) ∧
  (dict_lookup "assignee" state = None →
     row !! 3%nat = Some (PStr EmptyString) ∧
     field_text <$> row !! 3%nat = Some (Some EmptyString)) ∧
  (dict_lookup "progress" state = None →
     row !! 4%nat = Some (PStr EmptyString) ∧
     field_text <$> row !! 4%nat = Some (Some EmptyString)).
Proof.
  intros Hrow Hstate.
  destruct (job_row_cells _ _ _ Hrow)
    as (state' & id & ts & address & lat & lng & notes & rest & Hstate' & ->).
  rewrite Hstate in Hstate'. injection Hstate' as <-.
  split; [|split; [|split; [|split]]]; intros Hnone; simpl; rewrite Hnone;
    split; reflexivity.
Qed.

Lemma contact_cells_default_witness :
  sparse_row !! 8%nat = Some PNone ∧
  field_text <$> sparse_row !! 8%nat = Some (Some EmptyString).
Proof.
  refine (proj1 (contact_cells_default [7] sparse_job sparse_row
                   [("location", PDict []); ("note", PList [])] _ _) _);
    reflexivity.
Defined.

(** * Further properties *)

(** ** The custom field definitions *)

Lemma map_result_app_Raise {A B} (f : A → result B) l k x rest e :
  map_result f l = Ok k → f x = Raise e →
  map_result f (l ++ x :: rest) = Raise e.
Proof.
  revert k. induction l as [|y l IH]; intros k Hl Hx; simpl in *.
  - by rewrite Hx.
  - inv_bind Hl. inv_bind Hl. rewrite Ha. simpl. by erewrite IH.
Qed.

(** X1: when the answer to the custom field request has no [items] key, as
    for a team without custom fields, [get_custom_fields] raises [KeyError];
    export ends with it and writes nothing to the output. *)
Theorem custom_fields_without_items (fuel : nat) (team : Team) (verbose : bool)
    (w : io) (response : pydict) :
  customFieldDef_list (service team) (team_id team) = Ok response →
  has_key "items" response = false →
  get_custom_fields team = Raise KeyError ∧
  (export_to_csv fuel team verbose w).1 = Raised KeyError ∧
  out (export_to_csv fuel team verbose w).2 = out w.
Proof.
  intros Hresp Hno.
  assert (get_custom_fields team = Raise KeyError) as Hget.
  { unfold get_custom_fields. rewrite Hresp. simpl. unfold has_key in Hno.
    by destruct (dict_lookup "items" response). }
  split; [done|]. unfold export_to_csv. rewrite Hget. by destruct verbose.
Qed.

Lemma custom_fields_without_items_witness :
  get_custom_fields undefined_team = Raise KeyError ∧
  (export_to_csv 1 undefined_team true start).1 = Raised KeyError ∧
  out (export_to_csv 1 undefined_team true start).2 = out start.
Proof.
  apply (custom_fields_without_items 1 undefined_team true start []);
    reflexivity.
Defined.

(** X2: a definition without [id] or without [name] makes
    [get_custom_fields] raise [KeyError], also when the definitions before it
    are in order: there is no partial schema, and export writes nothing. *)
Theorem custom_fields_incomplete (fuel : nat) (team : Team) (verbose : bool)
    (w : io) (response : pydict) (good : list pyval) (defs : list (Z * pyval))
    (d : pydict) (rest : list pyval) :
  customFieldDef_list (service team) (team_id team) = Ok response →
  dict_lookup "items" response = Some (PList (good ++ PDict d :: rest)) →
  Forall2 (λ item def, custom_field_def item = Ok def) good defs →
  dict_lookup "id" d = None ∨ dict_lookup "name" d = None →
  get_custom_fields team = Raise KeyError ∧
  (export_to_csv fuel team verbose w).1 = Raised KeyError ∧
  out (export_to_csv fuel team verbose w).2 = out w.
Proof.
  intros Hresp Hitems Hgood Hbad.
  assert (custom_field_def (PDict d) = Raise KeyError) as Hd.
  { unfold custom_field_def. simpl.
    destruct (dict_lookup "name" d) as [name|]; [|done]. simpl.
    by destruct Hbad as [-> | ?]. }
  assert (get_custom_fields team = Raise KeyError) as Hget.
  { unfold get_custom_fields. rewrite Hresp. simpl. rewrite Hitems. simpl.
    apply map_result_Forall2 in Hgood.
    by rewrite (map_result_app_Raise _ _ _ _ _ _ Hgood Hd). }
  split; [done|]. unfold export_to_csv. rewrite Hget. by destruct verbose.
Qed.

Lemma custom_fields_incomplete_witness :
  get_custom_fields
    (page_team [("items", PList [field_def "7" "Priority";
                                 PDict [("name", PStr "Size")]])] [])
  = Raise KeyError.
Proof.
  refine (proj1 (custom_fields_incomplete 0
            (page_team [("items", PList [field_def "7" "Priority";
                                         PDict [("name", PStr "Size")]])] [])
            false start _ [field_def "7" "Priority"] [(7, PStr "Priority")]
            [("name", PStr "Size")] [] _ _ _ _)).
  - reflexivity.
  - reflexivity.
  - repeat constructor.
  - by left.
Defined.

Lemma dict_of_pairs_snoc l k v :
  dict_of_pairs (l ++ [(k, v)]) = <[k := v]> (dict_of_pairs l).
Proof. unfold dict_of_pairs. by rewrite foldl_app. Qed.

Lemma dict_of_pairs_NoDup (l : list (Z * pyval)) :
  NoDup l.*1 →
  size (dict_of_pairs l) = length l ∧
  ∀ k v, (k, v) ∈ l → dict_of_pairs l !! k = Some v.
Proof.
  induction l as [|[k v] l IH] using rev_ind; intros Hnd.
  - split; [done|]. by intros k v ?%elem_of_nil.
  - rewrite fmap_app in Hnd. apply NoDup_app in Hnd as (Hl & Hnotin & _).
    destruct (IH Hl) as [Hsize Hlook]. rewrite dict_of_pairs_snoc.
    assert (dict_of_pairs l !! k = None) as Hnone.
    { apply dict_of_pairs_lookup_None. intros Hin.
      apply (Hnotin k Hin). simpl. left. }
    split.
    + rewrite map_size_insert_None by done. rewrite length_app, Hsize.
      simpl. lia.
    + intros k' v' [Hin|Hin%list_elem_of_singleton]%elem_of_app.
      * rewrite lookup_insert_ne; [by apply Hlook|].
        intros <-. apply Hlook in Hin. congruence.
      * injection Hin as -> ->. by rewrite lookup_insert_eq.
Qed.

(** X3: the schema that [get_custom_fields] returns holds, under the
    integer of its [id], the name of every definition when the ids are
    distinct, and then has as many fields as there are definitions; of
    several definitions with one id the last one stays. *)
Theorem custom_fields_content (team : Team) (custom_fields : gmap Z pyval) :
  get_custom_fields team = Ok custom_fields →
  ∃ response items defs,
    customFieldDef_list (service team) (team_id team) = Ok response ∧
    (v ← py_item (PDict response) "items"; py_iter v) = Ok items ∧
    Forall2 (λ item def, custom_field_def item = Ok def) items defs ∧
    (∀ id name, custom_fields !! id = Some name → (id, name) ∈ defs) ∧
    (∀ id, custom_fields !! id = None ↔ id ∉ defs.*1) ∧
    (∀ before id name after,
       defs = before ++ (id, name) :: after → id ∉ after.*1 →
       custom_fields !! id = Some name) ∧
    (NoDup defs.*1 →
       size custom_fields = length items ∧
       ∀ id name, (id, name) ∈ defs → custom_fields !! id = Some name).
Proof.
  unfold get_custom_fields. intros H.
  inv_bind H. inv_bind H. inv_bind H. inv_bind H. injection H as <-.
  exists a, a1, a2. split; [done|]. split; [by rewrite Ha0|].
  apply map_result_Forall2 in Ha2.
  split; [done|]. split; [apply dict_of_pairs_lookup_Some|].
  split; [apply dict_of_pairs_lookup_None|]. split.
  - intros before id name after -> Hnotin. by apply dict_of_pairs_last.
  - intros Hnd. destruct (dict_of_pairs_NoDup a2 Hnd) as [Hsize Hlook].
    split; [|done]. rewrite Hsize. symmetry. by eapply Forall2_length.
Qed.

Lemma custom_fields_content_witness :
  ∃ response items defs,
    customFieldDef_list (service scenario_team) (team_id scenario_team)
      = Ok response ∧
    (v ← py_item (PDict response) "items"; py_iter v) = Ok items ∧
    Forall2 (λ item def, custom_field_def item = Ok def) items defs ∧
    (∀ id name, ({[ 7 := PStr "Priority" ]} : gmap Z pyval) !! id = Some name →
                (id, name) ∈ defs) ∧
    (∀ id, ({[ 7 := PStr "Priority" ]} : gmap Z pyval) !! id = None ↔
           id ∉ defs.*1) ∧
    (∀ before id name after,
       defs = before ++ (id, name) :: after → id ∉ after.*1 →
       ({[ 7 := PStr "Priority" ]} : gmap Z pyval) !! id = Some name) ∧
    (NoDup defs.*1 →
       size ({[ 7 := PStr "Priority" ]} : gmap Z pyval) = length items ∧
       ∀ id name, (id, name) ∈ defs →
         ({[ 7 := PStr "Priority" ]} : gmap Z pyval) !! id = Some name).
Proof.
  apply (custom_fields_content scenario_team {[ 7 := PStr "Priority" ]}).
  reflexivity.
Defined.

(** ** The requests of the walk *)

Lemma expected_list_next self req response next :
  expected self req = true → list_next req response = Some next →
  expected self next = true.
Proof.
  unfold list_next, expected. intros Hreq Hnext.
  destruct (dict_lookup "nextPageToken" response) as [token|]; [|done].
  destruct (truthy token); [|done]. by injection Hnext as <-.
Qed.

Lemma get_all_jobs_loop_strict fuel self request :
  (∀ req, request = Some req → expected self req = true) →
  get_all_jobs_loop fuel (strict self) request
  = get_all_jobs_loop fuel self request.
Proof.
  revert request. induction fuel as [|fuel IH]; intros [req|] Hreq; try done.
  simpl. rewrite (Hreq req eq_refl).
  destruct (execute (service self) req) as [response|e]; [|done].
  destruct (has_key "items" response); simpl; [|done].
  destruct (_ ≫= _) as [items|e]; [|done].
  rewrite IH; [done|]. intros next Hnext.
  eapply expected_list_next; [by apply Hreq|done].
Qed.

(** X4: every request that the walk sends is for the team itself, asks for
    the fields [items(id,state,jobChange(timestamp)),nextPageToken] and for
    pages of 100: behind a service that refuses every other request the
    walk and the export are what they are behind the service itself. *)
Theorem requests_as_expected (fuel : nat) (self : Team) (verbose : bool) (w : io) :
  get_all_jobs fuel (strict self) = get_all_jobs fuel self ∧
  export_to_csv fuel (strict self) verbose w = export_to_csv fuel self verbose w.
Proof.
  assert (get_all_jobs fuel (strict self) = get_all_jobs fuel self) as Hwalk.
  { unfold get_all_jobs. apply get_all_jobs_loop_strict.
    intros req [= <-]. unfold expected, jobs_list, job_fields. simpl.
    by rewrite !String.eqb_refl. }
  split; [done|]. unfold export_to_csv. by rewrite Hwalk.
Qed.

(** ** A failure in the middle of the walk *)

(** X5: when a request fails after some pages, the jobs of the pages before
    it are yielded and, if they all have rows, written: export ends with
    the exception of the request and leaves the header row and those rows
    in the output.  The header row is written before the first request, so
    it is there even when the first request fails. *)
Theorem failure_keeps_rows (fuel : nat) (team : Team) (verbose : bool) (w : io)
    (custom_fields : gmap Z pyval) (ids : list Z) (names : list pyval)
    (jobs : list pyval) (rows : list (list pyval)) (e : exn) :
  get_custom_fields team = Ok custom_fields →
  unzip (sorted_items custom_fields) = Ok (ids, names) →
  get_all_jobs fuel team = (jobs, Failed e) →
  Forall2 (λ job row, job_row ids job = Ok row) jobs rows →
  (export_to_csv fuel team verbose w).1 = Raised e ∧
  out (export_to_csv fuel team verbose w).2 = out w ++ header names :: rows.
Proof.
  intros Hget Hzip Hjobs Hrows. apply map_result_Forall2 in Hrows.
  unfold export_to_csv. rewrite Hget, Hzip, Hjobs.
  match goal with
  | |- context [export_jobs verbose ids jobs 0 ?w0] =>
      destruct (export_jobs_rows verbose ids jobs rows 0 w0 Hrows)
        as (w' & -> & Hout)
  end.
  split; [done|]. simpl. rewrite Hout.
  destruct verbose; simpl; by rewrite <-app_assoc.
Qed.

Lemma failure_keeps_rows_witness :
  (export_to_csv 2 broken_team true start).1 = Raised HttpError ∧
  out (export_to_csv 2 broken_team true start).2
  = out start ++ header [PStr "Priority"] :: [scenario_row].
Proof.
  apply (failure_keeps_rows 2 broken_team true start
           {[ 7 := PStr "Priority" ]} [7] [PStr "Priority"]
           [scenario_job] [scenario_row] HttpError); try reflexivity.
  repeat constructor.
Defined.

(** A request that fails ends the walk with its exception, after the items
    of the pages before it. *)
Lemma get_all_jobs_loop_Failed fuel self req e :
  execute (service self) req = Raise e →
  get_all_jobs_loop (S fuel) self (Some req) = ([], Failed e).
Proof. intros H. simpl. by rewrite H. Qed.

(** ** The progress marks *)

Lemma append_assoc (s1 s2 s3 : string) :
  (s1 +:+ s2) +:+ s3 = s1 +:+ (s2 +:+ s3).
Proof.
  induction s1 as [|c s1 IH]; [done|].
  change (String c ((s1 +:+ s2) +:+ s3) = String c (s1 +:+ (s2 +:+ s3))).
  by rewrite IH.
Qed.

Lemma append_empty (s : string) : s +:+ EmptyString = s.
Proof.
  induction s as [|c s IH]; [done|].
  change (String c (s +:+ EmptyString) = String c s). by rewrite IH.
Qed.

Lemma dots_add a b : dots (a + b) = dots a +:+ dots b.
Proof.
  induction a as [|a IH]; [done|].
  change (String "." (dots (a + b)) = String "." (dots a +:+ dots b)).
  by rewrite IH.
Qed.

Lemma export_jobs_quiet ids jobs count w :
  stderr (export_jobs false ids jobs count w).2 = stderr w.
Proof.
  revert count w. induction jobs as [|job jobs IH]; intros count w; simpl.
  - done.
  - destruct (job_row ids job) as [row|e]; [|done]. by rewrite IH.
Qed.

(** X6: without [verbose] export writes nothing to the standard error
    stream, however it ends. *)
Theorem quiet_export (fuel : nat) (team : Team) (w : io) :
  stderr (export_to_csv fuel team false w).2 = stderr w.
Proof.
  unfold export_to_csv.
  destruct (get_custom_fields team) as [m|e]; [|done].
  destruct (unzip (sorted_items m)) as [[ids names]|e]; [|done].
  destruct (get_all_jobs fuel team) as [jobs e].
  match goal with
  | |- context [export_jobs false ids jobs 0 ?w0] =>
      pose proof (export_jobs_quiet ids jobs 0 w0) as Hq;
      destruct (export_jobs false ids jobs 0 w0) as [[n|e'] w']
  end; simpl in Hq; [by destruct e|done].
Qed.

Lemma tenth_mark count :
  ((S count) / 10 - count / 10
   = if (S count mod 10 =? 0) then 1 else 0)%nat.
Proof.
  pose proof (Nat.div_mod_eq (S count) 10) as H1.
  pose proof (Nat.div_mod_eq count 10) as H2.
  pose proof (Nat.mod_upper_bound (S count) 10) as H3.
  pose proof (Nat.mod_upper_bound count 10) as H4.
  destruct (Nat.eqb_spec (S count mod 10) 0); lia.
Qed.

(** The loop with progress marks: one mark for every tenth job. *)
Lemma export_jobs_marks ids jobs count w :
  ∃ n, (count ≤ n)%nat ∧
    length (out (export_jobs true ids jobs count w).2)
      = (length (out w) + (n - count))%nat ∧
    stderr (export_jobs true ids jobs count w).2
      = stderr w +:+ dots (n / 10 - count / 10) ∧
    (∀ c, (export_jobs true ids jobs count w).1 = Ok c → c = n).
Proof.
  revert count w. induction jobs as [|job jobs IH]; intros count w.
  - exists count. split; [lia|]. rewrite !Nat.sub_diag. simpl.
    rewrite append_empty. split; [lia|]. split; [done|]. by intros c [= <-].
  - cbn [export_jobs]. destruct (job_row ids job) as [row|e].
    + cbn [andb].
      match goal with
      | |- context [export_jobs true ids jobs (S count) ?w0] =>
          destruct (IH (S count) w0) as (n & Hle & Hlen & Herr & Hc)
      end.
      pose proof (tenth_mark count) as Ht.
      exists n. split; [lia|]. split; [|split; [|done]].
      * rewrite Hlen.
        destruct (S count mod 10 =? 0)%nat;
          cbn [out writerow stderr_write]; rewrite length_app; simpl; lia.
      * rewrite Herr.
        assert (count / 10 ≤ S count / 10)%nat
          by (apply Nat.Div0.div_le_mono; lia).
        assert (S count / 10 ≤ n / 10)%nat
          by (apply Nat.Div0.div_le_mono; lia).
        replace (n / 10 - count / 10)%nat
          with ((S count / 10 - count / 10) + (n / 10 - S count / 10))%nat by lia.
        rewrite dots_add, Ht.
        destruct (S count mod 10 =? 0)%nat;
          cbn [stderr writerow stderr_write dots]; [|done].
        by rewrite append_assoc.
    + exists count. split; [lia|]. rewrite !Nat.sub_diag. simpl.
      rewrite append_empty. split; [lia|]. split; [done|]. by intros c.
Qed.

(** X7: with [verbose] and a schema with fields, export writes one mark
    before the schema is fetched, one after the header row and one after
    every tenth data row, whatever the way it ends: [2 + n / 10] marks for
    [n] data rows, and [n] is the count when it returns one. *)
Theorem verbose_marks (fuel : nat) (team : Team) (w : io)
    (custom_fields : gmap Z pyval) :
  get_custom_fields team = Ok custom_fields →
  custom_fields ≠ ∅ →
  ∃ n,
    length (out (export_to_csv fuel team true w).2)
      = (length (out w) + 1 + n)%nat ∧
    stderr (export_to_csv fuel team true w).2
      = stderr w +:+ dots (2 + n / 10) ∧
    (∀ count, (export_to_csv fuel team true w).1 = Returned count → count = n).
Proof.
  intros Hget Hne. unfold export_to_csv. rewrite Hget.
  destruct (sorted_items custom_fields) as [|p pairs] eqn:Hp.
  { by apply sorted_items_nil in Hp. }
  cbn [unzip]. destruct (get_all_jobs fuel team) as [jobs e].
  match goal with
  | |- context [export_jobs true ?i jobs 0 ?w0] =>
      destruct (export_jobs_marks i jobs 0%nat w0) as (n & _ & Hlen & Herr & Hc);
      destruct (export_jobs true i jobs 0 w0) as [[c|e'] w'] eqn:Hloop
  end; simpl in Hlen, Herr, Hc; exists n.
  - assert (out (match e with
                 | Exhausted => (Returned c, w')
                 | Failed e0 => (Raised e0, w')
                 | Running => (Unfinished, w') end).2 = out w') as ->
      by (by destruct e).
    assert (stderr (match e with
                 | Exhausted => (Returned c, w')
                 | Failed e0 => (Raised e0, w')
                 | Running => (Unfinished, w') end).2 = stderr w') as ->
      by (by destruct e).
    rewrite Hlen, Herr, length_app. simpl.
    rewrite !Nat.sub_0_r, !append_assoc. split; [lia|]. split; [done|].
    intros count Hcount. rewrite <-(Hc c eq_refl).
    destruct e; simpl in Hcount; congruence.
  - simpl. rewrite Hlen, Herr, length_app. simpl.
    rewrite !Nat.sub_0_r, !append_assoc. split; [lia|]. split; [done|].
    intros count Hcount. discriminate.
Qed.

Lemma verbose_marks_witness :
  ∃ n,
    length (out (export_to_csv 1 scenario_team true start).2)
      = (length (out start) + 1 + n)%nat ∧
    stderr (export_to_csv 1 scenario_team true start).2
      = stderr start +:+ dots (2 + n / 10) ∧
    (∀ count, (export_to_csv 1 scenario_team true start).1 = Returned count →
              count = n).
Proof.
  apply (verbose_marks 1 scenario_team start {[ 7 := PStr "Priority" ]}).
  - reflexivity.
  - intros H. apply (f_equal (λ m : gmap Z pyval, m !! 7)) in H. discriminate H.
Defined.

(** ** The shape of the output *)

Lemma job_row_length ids job row :
  job_row ids job = Ok row → length row = (11 + length ids)%nat.
Proof.
  intros Hrow.
  destruct (job_row_custom _ _ _ Hrow) as (state & custom & _ & _ & Hdrop).
  destruct (job_row_cells _ _ _ Hrow)
    as (st & i & ts & a & lat & lng & n & rest & _ & ->).
  change (rest = custom_cells custom ids) in Hdrop. subst rest.
  rewrite length_app. unfold custom_cells. by rewrite length_fmap.
Qed.

Lemma export_jobs_lengths verbose ids jobs count w :
  ∃ rows, out (export_jobs verbose ids jobs count w).2 = out w ++ rows ∧
          Forall (λ row, length row = (11 + length ids)%nat) rows.
Proof.
  revert count w. induction jobs as [|job jobs IH]; intros count w;
    cbn [export_jobs].
  - exists []. by rewrite app_nil_r.
  - destruct (job_row ids job) as [row|e] eqn:Hrow.
    + edestruct IH as (rows & -> & Hrows). exists (row :: rows). split.
      * destruct (verbose && _); simpl; by rewrite <-app_assoc.
      * constructor; [by eapply job_row_length|done].
    + exists []. by rewrite app_nil_r.
Qed.

(** X8: whatever export writes is rectangular: every row that it adds to
    the output, the header row and the row of every job alike, has eleven
    cells plus one for each field of the schema, whether export returns,
    raises in the middle or is still running. *)
Theorem rows_rectangular (fuel : nat) (team : Team) (verbose : bool) (w : io)
    (custom_fields : gmap Z pyval) :
  get_custom_fields team = Ok custom_fields →
  ∃ rows, out (export_to_csv fuel team verbose w).2 = out w ++ rows ∧
          Forall (λ row, length row = (11 + size custom_fields)%nat) rows.
Proof.
  intros Hget. unfold export_to_csv. rewrite Hget.
  pose proof (length_sorted_items custom_fields) as Hsize.
  destruct (sorted_items custom_fields) as [|p pairs] eqn:Hp.
  { exists []. simpl. split; [|done]. rewrite app_nil_r. by destruct verbose. }
  cbn [unzip]. destruct (get_all_jobs fuel team) as [jobs e].
  match goal with
  | |- context [export_jobs verbose ?i jobs 0 ?w0] =>
      destruct (export_jobs_lengths verbose i jobs 0%nat w0)
        as (rows & Hout & Hrows);
      destruct (export_jobs verbose i jobs 0 w0) as [[c|e'] w'] eqn:Hloop
  end; simpl in Hout;
    exists (header (p :: pairs).*2 :: rows); (split; [|constructor]).
  - replace (out _) with (out w') by (by destruct e).
    rewrite Hout. destruct verbose; simpl; by rewrite <-app_assoc.
  - unfold header. rewrite length_app, !length_fmap, Hsize. done.
  - by rewrite length_fmap, Hsize in Hrows.
  - simpl. rewrite Hout. destruct verbose; simpl; by rewrite <-app_assoc.
  - unfold header. rewrite length_app, !length_fmap, Hsize. done.
  - by rewrite length_fmap, Hsize in Hrows.
Qed.

Lemma rows_rectangular_witness :
  ∃ rows, out (export_to_csv 1 scenario_team true start).2 = out start ++ rows ∧
          Forall (λ row, length row
                         = (11 + size ({[ 7%Z := PStr "Priority" ]} : gmap Z pyval))%nat)
                 rows.
Proof.
  apply (rows_rectangular 1 scenario_team true start {[ 7 := PStr "Priority" ]}).
  reflexivity.
Defined.

(** X9: the columns of the header and the cells of a row line up: the
    name in column [11 + i] of the header is the name that the schema gives
    to the id whose value the rows carry in that column. *)
Theorem columns_aligned (custom_fields : gmap Z pyval) (ids : list Z)
    (names : list pyval) (i : nat) (id : Z) :
  unzip (sorted_items custom_fields) = Ok (ids, names) →
  ids !! i = Some id →
  ∃ name, custom_fields !! id = Some name ∧
          header names !! (11 + i)%nat = Some name ∧
          ∀ job row custom state,
            job_row ids job = Ok row →
            py_get job "state" PNone = Ok state →
            job_custom state = Ok custom →
            row !! (11 + i)%nat = Some (default empty_str (custom !! id)).
Proof.
  intros (_ & -> & ->)%unzip_Ok Hid.
  rewrite list_lookup_fmap in Hid.
  destruct (sorted_items custom_fields !! i) as [[id' name]|] eqn:Hi;
    [|done].
  injection Hid as ->. exists name. split; [|split].
  - apply sorted_items_elem_of. by eapply list_elem_of_lookup_2.
  - unfold header. rewrite lookup_app_r by (rewrite length_fmap; simpl; lia).
    rewrite length_fmap.
    replace (11 + i - length fixed_columns)%nat with i by (simpl; lia).
    by rewrite list_lookup_fmap, Hi.
  - intros job row custom state Hrow Hstate Hcustom.
    destruct (job_row_custom _ _ _ Hrow) as (state' & custom' & Hs & Hc & Hdrop).
    rewrite Hstate in Hs. injection Hs as <-.
    rewrite Hcustom in Hc. injection Hc as <-.
    rewrite <-(lookup_drop row 11 i), Hdrop.
    apply custom_cells_lookup. by rewrite list_lookup_fmap, Hi.
Qed.

Lemma columns_aligned_witness :
  ∃ name, ({[ 7 := PStr "Priority" ]} : gmap Z pyval) !! 7 = Some name ∧
          header [PStr "Priority"] !! (11 + 0)%nat = Some name ∧
          ∀ job row custom state,
            job_row [7] job = Ok row →
            py_get job "state" PNone = Ok state →
            job_custom state = Ok custom →
            row !! (11 + 0)%nat = Some (default empty_str (custom !! 7)).
Proof.
  apply (columns_aligned {[ 7 := PStr "Priority" ]} [7] [PStr "Priority"] 0 7);
    reflexivity.
Defined.

(** ** Timestamps outside the calendar *)

Lemma civil_from_days_late n :
  2932897 ≤ n → let '(y, m, d) := civil_from_days n in 10000 ≤ y.
Proof.
  intros Hn. unfold civil_from_days. cbv zeta.
  set (z := n + 719468). set (era := z / 146097).
  set (doe := z - era * 146097).
  assert (0 ≤ doe ≤ 146096) as Hdoe
    by (subst doe era; Z.div_mod_to_equations; lia).
  assert (24 ≤ era) as Hera by (subst era z; Z.div_mod_to_equations; lia).
  pose proof (yoe_doy_range doe Hdoe) as Hy. cbv zeta in Hy.
  set (yoe := (doe - doe / 1460 + doe / 36524 - doe / 146096) / 365) in *.
  set (doy := doe - (365 * yoe + yoe / 4 - yoe / 100)) in *.
  assert (era = 24 → 146037 ≤ doe) by (subst doe z; lia).
  clearbody yoe doe era.
  set (mp := (5 * doy + 2) / 153).
  assert (0 ≤ mp ≤ 11 ∧ (mp < 10 ↔ doy < 306)) as Hmp
    by (subst mp; Z.div_mod_to_equations; lia).
  clearbody mp. subst doy.
  assert (era = 24 ∨ 25 ≤ era) as He by lia.
  assert (yoe ≤ 398 ∨ yoe = 399) as Hc by lia.
  destruct (Z.ltb_spec mp 10); split_ifs;
    destruct He as [He|He]; destruct Hc as [Hc|Hc];
    Z.div_mod_to_equations; lia.
Qed.

Lemma civil_from_days_early n :
  n < -25567 → let '(y, m, d) := civil_from_days n in y < 1900.
Proof.
  intros Hn. unfold civil_from_days. cbv zeta.
  set (z := n + 719468). set (era := z / 146097).
  set (doe := z - era * 146097).
  assert (0 ≤ doe ≤ 146096) as Hdoe
    by (subst doe era; Z.div_mod_to_equations; lia).
  assert (era ≤ 4) as Hera by (subst era z; Z.div_mod_to_equations; lia).
  pose proof (yoe_doy_range doe Hdoe) as Hy. cbv zeta in Hy.
  set (yoe := (doe - doe / 1460 + doe / 36524 - doe / 146096) / 365) in *.
  set (doy := doe - (365 * yoe + yoe / 4 - yoe / 100)) in *.
  assert (era = 4 → doe < 109513) by (subst doe z; lia).
  clearbody yoe doe era.
  set (mp := (5 * doy + 2) / 153).
  assert (0 ≤ mp ≤ 11 ∧ (mp < 10 ↔ doy < 306)) as Hmp
    by (subst mp; Z.div_mod_to_equations; lia).
  clearbody mp. subst doy.
  assert (era = 4 ∨ era ≤ 3) as He by lia.
  assert (yoe ≤ 298 ∨ yoe = 299 ∨ 300 ≤ yoe) as Hc by lia.
  destruct (Z.ltb_spec mp 10); split_ifs;
    destruct He as [He|He]; destruct Hc as [Hc|[Hc|Hc]];
    Z.div_mod_to_equations; lia.
Qed.

(** X10: a job whose latest change lies in the year 10000 or later, or
    before the year 1900, has no row, and with it the export of all jobs
    ends: the conversion of the timestamp raises [ValueError]
    ([utcfromtimestamp] beyond the year 9999 or before the year 1,
    [strftime] before 1900) when the seconds fit a C double, and
    [OverflowError] when they do not. *)
Theorem timestamp_out_of_range (ids : list Z) (job : pyval) (m : Z) :
  last_change job = Ok m →
  253402300800000 ≤ m ∨ m < -2208988800000 →
  (Z.abs (m / 1000) < 2 ^ 1024 - 2 ^ 970 → job_row ids job = Raise ValueError) ∧
  (2 ^ 1024 - 2 ^ 970 ≤ Z.abs (m / 1000) → job_row ids job = Raise OverflowError).
Proof.
  intros Hm Hrange. unfold job_row, last_update. rewrite Hm.
  cbn [mbind result_bind]. unfold utcfromtimestamp, strftime, double_overflow.
  split; intros Hfit.
  - destruct (Z.leb_spec (2 ^ 1024 - 2 ^ 970) (Z.abs (m / 1000))); [lia|].
    destruct Hrange as [Hlate|Hearly].
    + pose proof (civil_from_days_late (m / 1000 / 86400)) as Hy.
      destruct (civil_from_days (m / 1000 / 86400)) as [[y mo] d].
      assert (10000 ≤ y) by (apply Hy; Z.div_mod_to_equations; lia).
      destruct (Z.leb_spec y 9999); [lia|]. by rewrite andb_false_r.
    + pose proof (civil_from_days_early (m / 1000 / 86400)) as Hy.
      destruct (civil_from_days (m / 1000 / 86400)) as [[y mo] d].
      assert (y < 1900) by (apply Hy; Z.div_mod_to_equations; lia).
      destruct ((1 <=? y) && (y <=? 9999)); [|done].
      cbn [mbind result_bind year].
      destruct (Z.eqb_spec m 0); [lia|].
      by destruct (Z.ltb_spec y 1900); [|lia].
  - by destruct (Z.leb_spec (2 ^ 1024 - 2 ^ 970) (Z.abs (m / 1000))); [|lia].
Qed.

Lemma timestamp_out_of_range_witness :
  job_row [7] late_job = Raise ValueError.
Proof.
  refine (proj1 (timestamp_out_of_range [7] late_job 253402300800000 _ _) _).
  - reflexivity.
  - left. lia.
  - by vm_compute.
Defined.

(** ** The cells of a row *)

Lemma map_result_as_str (l : list string) :
  map_result as_str (PStr <$> l) = Ok l.
Proof.
  apply map_result_Forall2. induction l as [|s l IH]; by constructor.
Qed.

Lemma py_join_strings sep (l : list string) :
  py_join sep (PList (PStr <$> l)) = Ok (PStr (join sep l)).
Proof. unfold py_join. simpl. by rewrite map_result_as_str. Qed.

(** X11: the first cell of a row is the [id] of the job as it is, and a
    job without [id] has no row: when the rest of it is well formed,
    [job_row] raises [KeyError]. *)
Theorem job_id_cell (ids : list Z) (job : pyval) :
  (∀ row, job_row ids job = Ok row →
          ∃ v, py_item job "id" = Ok v ∧ row !! 0%nat = Some v) ∧
  (∀ d, job = PDict d →
        dict_lookup "id" d = None →
        wf_changes (default PNone (dict_lookup "jobChange" d)) = true →
        wf_state (default PNone (dict_lookup "state" d)) = true →
        job_row ids job = Raise KeyError).
Proof.
  split.
  - unfold job_row. intros row H. do 5 inv_bind H. exists a3.
    split; [done|]. repeat inv_bind H. by injection H as <-.
  - intros d -> Hid Hchanges Hstate. unfold job_row.
    destruct (last_update_wf d Hchanges) as [cell ->].
    cbn [mbind result_bind py_get].
    destruct (dict_lookup "state" d) as [[| | | | | |state]|];
      try discriminate. simpl in Hstate.
    apply andb_true_iff in Hstate as [[Hloc Hnote]%andb_true_iff Hcustom].
    destruct (job_custom_wf state Hcustom) as [custom Hc].
    cbn [from_option id mbind result_bind py_get].
    destruct (dict_lookup "location" state) as [[| | | | | |location]|];
      try discriminate.
    cbn [from_option id mbind result_bind py_get]. rewrite Hc.
    cbn [mbind result_bind py_item]. by rewrite Hid.
Qed.

Lemma job_id_cell_witness : job_row [7] nameless_job = Raise KeyError.
Proof.
  refine (proj2 (job_id_cell [7] nameless_job) _ _ _ _ _); reflexivity.
Defined.

(** X12: in the row of a job the cell Address is the address lines of the
    location joined by [" / "], the empty string when the location has no
    [addressLine]; Lat and Lon are the [lat] and [lng] of the location as
    they are, [None] when missing; Notes is the notes of the state joined by
    [" / "]. *)
Theorem location_cells (ids : list Z) (job : pyval) (row : list pyval) :
  job_row ids job = Ok row →
  ∃ state location,
    py_get job "state" PNone = Ok (PDict state) ∧
    dict_lookup "location" state = Some (PDict location) ∧
    (∀ lines, dict_lookup "addressLine" location = Some (PList (PStr <$> lines)) →
              row !! 5%nat = Some (PStr (join " / " lines))) ∧
    (dict_lookup "addressLine" location = None →
       row !! 5%nat = Some empty_str) ∧
    row !! 6%nat = Some (default PNone (dict_lookup "lat" location)) ∧
    row !! 7%nat = Some (default PNone (dict_lookup "lng" location)) ∧
    (∀ notes, dict_lookup "note" state = Some (PList (PStr <$> notes)) →
              row !! 10%nat = Some (PStr (join " / " notes))).
Proof.
  unfold job_row. intros H.
  apply bind_Ok in H as (timestamp & _ & H).
  apply bind_Ok in H as (st & Hstate & H).
  destruct st as [| | | | | |state]; try discriminate H.
  apply bind_Ok in H as (loc & Hloc & H).
  apply bind_Ok in H as (custom & _ & H).
  apply bind_Ok in H as (job_id & _ & H).
  apply bind_Ok in H as (title & _ & H).
  apply bind_Ok in H as (assignee & _ & H).
  apply bind_Ok in H as (progress & _ & H).
  destruct loc as [| | | | | |location]; try discriminate H.
  apply bind_Ok in H as (lines & Hlines & H).
  apply bind_Ok in H as (address & Haddress & H).
  apply bind_Ok in H as (lat & Hlat & H).
  apply bind_Ok in H as (lng & Hlng & H).
  apply bind_Ok in H as (name & _ & H).
  apply bind_Ok in H as (phone & _ & H).
  apply bind_Ok in H as (note & Hnote & H).
  apply bind_Ok in H as (notes & Hnotes & H).
  injection H as <-. exists state, location. split; [done|].
  simpl in Hloc, Hlines, Hlat, Hlng, Hnote.
  injection Hloc as Hloc. injection Hlines as <-. injection Hlat as <-.
  injection Hlng as <-. injection Hnote as <-.
  split.
  { by destruct (dict_lookup "location" state) as [?|]; simplify_eq/=. }
  split; [|split; [|split; [done|split; [done|]]]].
  - intros ls Hls. rewrite Hls in Haddress. simpl in Haddress.
    rewrite py_join_strings in Haddress. by injection Haddress as <-.
  - intros Hnone. rewrite Hnone in Haddress. by injection Haddress as <-.
  - intros ns Hns. rewrite Hns in Hnotes. simpl in Hnotes.
    rewrite py_join_strings in Hnotes. by injection Hnotes as <-.
Qed.

Lemma location_cells_witness :
  ∃ state location,
    py_get scenario_job "state" PNone = Ok (PDict state) ∧
    dict_lookup "location" state = Some (PDict location) ∧
    (∀ lines, dict_lookup "addressLine" location = Some (PList (PStr <$> lines)) →
              scenario_row !! 5%nat = Some (PStr (join " / " lines))) ∧
    (dict_lookup "addressLine" location = None →
       scenario_row !! 5%nat = Some empty_str) ∧
    scenario_row !! 6%nat = Some (default PNone (dict_lookup "lat" location)) ∧
    scenario_row !! 7%nat = Some (default PNone (dict_lookup "lng" location)) ∧
    (∀ notes, dict_lookup "note" state = Some (PList (PStr <$> notes)) →
              scenario_row !! 10%nat = Some (PStr (join " / " notes))).
Proof. apply (location_cells [7] scenario_job scenario_row). reflexivity. Defined.

(** ** [main] *)

(** What a verbose export adds to the standard error stream is progress
    marks and nothing else. *)
Lemma export_to_csv_marks fuel team w :
  ∃ k, stderr (export_to_csv fuel team true w).2 = stderr w +:+ dots k.
Proof.
  unfold export_to_csv.
  destruct (get_custom_fields team) as [m|e]; [|by exists 1%nat].
  destruct (unzip (sorted_items m)) as [[ids names]|e]; [|by exists 1%nat].
  destruct (get_all_jobs fuel team) as [jobs e].
  match goal with
  | |- context [export_jobs true ids jobs 0 ?w0] =>
      destruct (export_jobs_marks ids jobs 0%nat w0) as (n & _ & _ & Herr & _);
      destruct (export_jobs true ids jobs 0 w0) as [[c|e'] w']
  end; simpl in Herr; exists (2 + (n / 10 - 0 / 10))%nat.
  - replace (stderr _) with (stderr w') by (by destruct e).
    rewrite Herr, !append_assoc. done.
  - simpl. rewrite Herr, !append_assoc. done.
Qed.

(** X13: when the walk comes to its end and every job has a row, [main]
    writes the header row and the rows to the output, closes it, and prints
    on the standard error stream [Working...], the progress marks and the
    line [N job(s) written to <name>.], with [job] for one job and [jobs]
    for any other number. *)
Theorem main_summary (svc : Service) (team_id out_name : string) (fuel : nat)
    (w : io) (custom_fields : gmap Z pyval) (ids : list Z) (names : list pyval)
    (jobs : list pyval) (rows : list (list pyval)) :
  let team := {| service := svc; team_id := team_id |} in
  get_custom_fields team = Ok custom_fields →
  unzip (sorted_items custom_fields) = Ok (ids, names) →
  get_all_jobs fuel team = (jobs, Exhausted) →
  Forall2 (λ job row, job_row ids job = Ok row) jobs rows →
  ∃ r, main (Ok svc) team_id out_name fuel w = (Returned (length jobs), r) ∧
       closed r = true ∧
       out (streams r) = out w ++ header names :: rows ∧
       stderr (streams r)
       = stderr w +:+ "Working..." +:+ dots (2 + length jobs / 10) +:+
         newline +:+ pretty (length jobs) +:+
         (if decide (length jobs = 1%nat) then " job" else " jobs") +:+
         " written to " +:+ out_name +:+ "." +:+ newline.
Proof.
  intros team Hget Hzip Hjobs Hrows. apply map_result_Forall2 in Hrows.
  unfold main. cbn [Team_init mbind result_bind]. fold team.
  unfold export_to_csv. rewrite Hget, Hzip, Hjobs.
  match goal with
  | |- context [export_jobs true ids jobs 0 ?w0] =>
      destruct (export_jobs_rows true ids jobs rows 0 w0 Hrows)
        as (w' & Heq & Hout);
      destruct (export_jobs_marks ids jobs 0%nat w0) as (n & _ & _ & Herr & Hc);
      rewrite Heq in Herr, Hc |- *
  end.
  cbn [fst snd] in Herr, Hc. rewrite <-(Hc _ eq_refl) in Herr.
  cbn [Nat.add] in *.
  eexists. split; [done|]. split; [done|]. split.
  - cbn [streams out stderr_write]. rewrite Hout. simpl.
    by rewrite <-app_assoc.
  - cbn [streams stderr stderr_write]. rewrite Herr.
    cbn [stderr stderr_write writerow]. unfold summary.
    rewrite Nat.Div0.div_0_l, Nat.sub_0_r.
    change (dots (2 + length jobs / 10))
      with ("." +:+ "." +:+ dots (length jobs / 10)).
    destruct (decide (length jobs = 1%nat)) as [->|Hne].
    + simpl. by rewrite !append_assoc.
    + destruct (Nat.eqb_spec (length jobs) 1); [done|].
      simpl. by rewrite !append_assoc.
Qed.

Lemma main_summary_witness :
  ∃ r, main (Ok (page_service priority_defs [[("items", PList [scenario_job])]]))
         "team" "out.csv" 1 start = (Returned (length [scenario_job]), r) ∧
       closed r = true ∧
       out (streams r) = out start ++ header [PStr "Priority"] :: [scenario_row] ∧
       stderr (streams r)
       = stderr start +:+ "Working..." +:+
         dots (2 + length [scenario_job] / 10) +:+
         newline +:+ pretty (length [scenario_job]) +:+
         (if decide (length [scenario_job] = 1%nat) then " job" else " jobs") +:+
         " written to " +:+ "out.csv" +:+ "." +:+ newline.
Proof.
  apply (main_summary (page_service priority_defs [[("items", PList [scenario_job])]])
           "team" "out.csv" 1 start {[ 7 := PStr "Priority" ]} [7]
           [PStr "Priority"] [scenario_job] [scenario_row]); try reflexivity.
  repeat constructor.
Defined.

(** X14: when the authorization fails, [main] ends with its exception
    after [Working...], with the output untouched; when [export_to_csv]
    does not return a count, [main] ends the way the export ends, with its
    exception, and leaves the streams as the export left them: no summary
    line follows [Working...] and the progress marks, and
    [out_file.close()] is not reached.  [main] closes the output exactly
    when it ends with a count. *)
Theorem main_failure (connect : result Service) (team_id out_name : string)
    (fuel : nat) (w : io) :
  (∀ e, connect = Raise e →
     main connect team_id out_name fuel w
     = (Raised e, {| streams := stderr_write "Working..." w; closed := false |})) ∧
  (∀ svc o w',
     connect = Ok svc →
     export_to_csv fuel {| service := svc; team_id := team_id |} true
       (stderr_write "Working..." w) = (o, w') →
     (∀ count, o ≠ Returned count) →
     main connect team_id out_name fuel w
     = (o, {| streams := w'; closed := false |}) ∧
     ∃ k, stderr w' = stderr w +:+ "Working..." +:+ dots k) ∧
  (∀ o r, main connect team_id out_name fuel w = (o, r) →
          (closed r = true ↔ ∃ count, o = Returned count)).
Proof.
  split; [|split].
  - intros e ->. done.
  - intros svc o w' -> Hex Hne. unfold main.
    cbn [Team_init mbind result_bind].
    match goal with
    | |- context [export_to_csv fuel ?t true ?w0] =>
        destruct (export_to_csv_marks fuel t w0) as [k Hk]
    end.
    rewrite Hex in Hk |- *. simpl in Hk. split.
    + destruct o as [count|e|]; [by destruct (Hne count)|done..].
    + exists k. by rewrite Hk, append_assoc.
  - intros o r. unfold main.
    destruct connect as [svc|e]; cbn [Team_init mbind result_bind].
    + destruct (export_to_csv fuel _ true _) as [[c|e|] w'];
        intros [= <- <-]; simpl.
      * split; [eauto|done].
      * split; [done|]. by intros [c ?].
      * split; [done|]. by intros [c ?].
    + intros [= <- <-]. simpl. split; [done|]. by intros [c ?].
Qed.

Lemma main_failure_witness :
  main (Ok (service noteless_team)) "team" "out.csv" 1 start
  = (Raised TypeError,
     {| streams := {| out := [scenario_header];
                      stderr := "Working..." +:+ dots 2 |};
        closed := false |}) ∧
  ∃ k, "Working..." +:+ dots 2 = stderr start +:+ "Working..." +:+ dots k.
Proof.
  refine (proj1 (proj2 (main_failure (Ok (service noteless_team)) "team"
                          "out.csv" 1 start))
            (service noteless_team) (Raised TypeError)
            {| out := [scenario_header]; stderr := "Working..." +:+ dots 2 |}
            eq_refl _ _).
  - reflexivity.
  - intros count. discriminate.
Defined.
